(** * Shallow embedding of the Vinegar background helpers (src/unnamed/part_002)

    Strings are modelled as Rocq [string]s of ASCII characters; JS
    [toLowerCase] is the ASCII case map on them, [includes] is substring
    search, and [split(' ')[0]] is the prefix up to the first space. *)

From Stdlib Require Import String Ascii List ZArith Bool Lia QArith Lqa Sorting.Permutation.
From stdpp Require Import base gmap sets strings.
Import ListNotations.
Open Scope string_scope.
Open Scope Z_scope.
#[local] Set Warnings "-register-all".

Module JsString.

(** [c.toLowerCase()] on an ASCII character. *)
Definition lower_char (c : ascii) : ascii :=
  let n := nat_of_ascii c in
  if andb (Nat.leb 65 n) (Nat.leb n 90) then ascii_of_nat (n + 32) else c.

(** [s.toLowerCase()] *)
Fixpoint toLowerCase (s : string) : string :=
  match s with
  | EmptyString => EmptyString
  | String c s' => String (lower_char c) (toLowerCase s')
  end.

(** [s.startsWith(p)] *)
Fixpoint startsWith (s p : string) : bool :=
  match p, s with
  | EmptyString, _ => true
  | String c p', String d s' => if Ascii.eqb c d then startsWith s' p' else false
  | String _ _, EmptyString => false
  end.

(** [s.includes(sub)]: some suffix of [s] starts with [sub]. *)
Fixpoint includes (s sub : string) : bool :=
  if startsWith s sub then true
  else match s with
       | EmptyString => false
       | String _ s' => includes s' sub
       end.

(** [s.split(' ')[0]]: the text before the first space. *)
Fixpoint firstWord (s : string) : string :=
  match s with
  | EmptyString => EmptyString
  | String c s' => if Ascii.eqb c " "%char then EmptyString else String c (firstWord s')
  end.

Lemma startsWith_empty s : startsWith s "" = true.
Proof. destruct s; reflexivity. Qed.

Lemma includes_empty s : includes s "" = true.
Proof. destruct s; reflexivity. Qed.

End JsString.

Import JsString.

(** ** Company analysis and user preferences, as the scorer reads them. *)

(** A parsed [CompanyAnalysis]; optional properties are [option]s
    ([undefined] is [None]). *)
Record CompanyAnalysis := mkAnalysis {
  parentCompany : option string;
  companySize : option string;
  ownershipType : option string;
  subsidiaries : option (list string);
  factualConcerns : option (list string);
  certifications : option (list string)
}.

(** The user preferences the scorer reads. [sustainableProducts] is
    [undefined] ([None]) unless set. *)
Record UserPreferences := mkPrefs {
  avoidedBrands : option (list string);
  sustainableProducts : option bool
}.

(** [x || []] and [x?.toLowerCase() || ''] *)
Definition or_nil {A} (o : option (list A)) : list A :=
  match o with Some l => l | None => [] end.
Definition lower_or_empty (o : option string) : string :=
  match o with Some s => toLowerCase s | None => "" end.

Module Scorer.

(** A breakdown entry [{ reason, change }]. *)
Record entry := mkEntry { reason : string; change : Z }.

(** The two locals [score] and [breakdown] of [calculateAlignmentScore]. *)
Record acc := mkAcc { score : Z; breakdown : list entry }.

Definition init : acc := mkAcc 100 [].

(** [score += d; breakdown.push({reason: r, change: c})]: the two
    statements of every branch, kept apart so that the invariant relating
    them is proved rather than built in. *)
Definition step (a : acc) (d : Z) (r : string) (c : Z) : acc :=
  mkAcc (score a + d) (breakdown a ++ [mkEntry r c]).

(** Company Size Penalty *)
Definition sizeRule (companySize : string) (a : acc) : acc :=
  if includes companySize "mega" || includes companySize ">100b" then
    step a (-15) "Mega-corporation (>$100B revenue)" (-15)
  else if includes companySize "large" || includes companySize "10b-100b" then
    step a (-10) "Large corporation ($10B-$100B)" (-10)
  else if includes companySize "medium" || includes companySize "1b-10b" then
    step a (-5) "Medium corporation ($1B-$10B)" (-5)
  else if includes companySize "small" || includes companySize "<1b" then
    step a 10 "Small business (<$1B)" 10
  else a.

(** Ownership Structure *)
Definition ownershipRule (ownership companySize : string) (a : acc) : acc :=
  if includes ownership "publicly-traded" && includes companySize "mega" then
    step a (-10) "Publicly traded mega-corp" (-10)
  else if includes ownership "private equity" then
    step a (-5) "Private equity owned" (-5)
  else if includes ownership "family" then
    step a 10 "Family-owned business" 10
  else if includes ownership "co-op" || includes ownership "b-corp" then
    step a 15 "Co-op or B-Corp structure" 15
  else a.

(** User's Avoided Brands: the [for ... break] loop. *)
Fixpoint avoidLoop (companyName : string) (subs : option (list string))
    (brands : list string) (a : acc) : acc :=
  match brands with
  | [] => a
  | avoidedBrand :: rest =>
      let brandLower := toLowerCase avoidedBrand in
      if includes companyName brandLower then
        step a (-30) ("On your avoid list: " ++ avoidedBrand) (-30)
      else if (match subs with
               | Some l => existsb (fun sub => includes (toLowerCase sub) brandLower) l
               | None => false end) then
        step a (-25) ("Parent company on avoid list: " ++ avoidedBrand) (-25)
      else avoidLoop companyName subs rest a
  end.

Definition avoidRule (cd : CompanyAnalysis) (up : UserPreferences) (a : acc) : acc :=
  avoidLoop (lower_or_empty (parentCompany cd)) (subsidiaries cd)
    (or_nil (avoidedBrands up)) a.

(** The four "fires once" flags of the Documented Issues loop. *)
Record flags := mkFlags { laborIssues : bool; envIssues : bool;
                          antiCompetitive : bool; political : bool }.

Definition concernStep (concern : string) (st : acc * flags) : acc * flags :=
  let '(a, f) := st in
  let c := toLowerCase concern in
  let '(a, f) :=
    if (includes c "labor" || includes c "worker" || includes c "wage") && negb (laborIssues f)
    then (step a (-10) "Documented labor concerns" (-10),
          mkFlags true (envIssues f) (antiCompetitive f) (political f))
    else (a, f) in
  let '(a, f) :=
    if (includes c "environment" || includes c "pollution" || includes c "climate") && negb (envIssues f)
    then (step a (-10) "Environmental violations" (-10),
          mkFlags (laborIssues f) true (antiCompetitive f) (political f))
    else (a, f) in
  let '(a, f) :=
    if (includes c "monopoly" || includes c "anti-competitive" || includes c "antitrust")
       && negb (antiCompetitive f)
    then (step a (-5) "Anti-competitive practices" (-5),
          mkFlags (laborIssues f) (envIssues f) true (political f))
    else (a, f) in
  if (includes c "political" || includes c "lobbying" || includes c "controversy") && negb (political f)
  then (step a (-5) "Political controversies" (-5),
        mkFlags (laborIssues f) (envIssues f) (antiCompetitive f) true)
  else (a, f).

Fixpoint concernLoop (concerns : list string) (st : acc * flags) : acc * flags :=
  match concerns with
  | [] => st
  | c :: rest => concernLoop rest (concernStep c st)
  end.

Definition concernRule (cd : CompanyAnalysis) (a : acc) : acc :=
  fst (concernLoop (or_nil (factualConcerns cd)) (a, mkFlags false false false false)).

(** Certifications (bonus points). *)
Definition certStep (cert : string) (a : acc) : acc :=
  let certLower := toLowerCase cert in
  if includes certLower "b-corp" || includes certLower "b corp" then
    step a 15 "B-Corp certified" 15
  else if includes certLower "fair trade" then
    step a 10 "Fair Trade certified" 10
  else if includes certLower "carbon neutral" || includes certLower "carbon-neutral" then
    step a 5 "Carbon neutral commitment" 5
  else if includes certLower "living wage" then
    step a 10 "Living wage employer" 10
  else a.

Definition certRule (cd : CompanyAnalysis) (up : UserPreferences) (a : acc) : acc :=
  (* userPreferences.sustainableProducts !== false *)
  let sustainable := match sustainableProducts up with Some false => false | _ => true end in
  if sustainable then fold_left (fun a c => certStep c a) (or_nil (certifications cd)) a
  else a.

(** The scorer's result [{ score, breakdown }]. *)
Record result := mkResult { finalScore : Z; resultBreakdown : list entry }.

Definition calculateAlignmentScore (cd : CompanyAnalysis) (up : UserPreferences) : result :=
  let companySize := lower_or_empty (companySize cd) in
  let ownership := lower_or_empty (ownershipType cd) in
  let a := sizeRule companySize init in
  let a := ownershipRule ownership companySize a in
  let a := avoidRule cd up a in
  let a := concernRule cd a in
  let a := certRule cd up a in
  mkResult (Z.max 0 (Z.min 100 (score a))) (breakdown a).

(** [checkAvoidedBrands]: returns [{ isOnAvoidList, reason }]. *)
Fixpoint checkSubs (brandLower avoidedBrand : string) (subs : list string) : option string :=
  match subs with
  | [] => None
  | subsidiary :: rest =>
      if includes subsidiary brandLower || includes brandLower (firstWord subsidiary)
      then Some ("Parent company of " ++ avoidedBrand ++ " (which you've chosen to avoid)")
      else checkSubs brandLower avoidedBrand rest
  end.

Fixpoint checkLoop (companyName : string) (subs : list string) (brands : list string)
    : bool * string :=
  match brands with
  | [] => (false, "")
  | avoidedBrand :: rest =>
      let brandLower := toLowerCase avoidedBrand in
      if includes companyName brandLower || includes brandLower (firstWord companyName) then
        (true, "You've chosen to avoid " ++ avoidedBrand)
      else match checkSubs brandLower avoidedBrand subs with
           | Some r => (true, r)
           | None => checkLoop companyName subs rest
           end
  end.

Definition checkAvoidedBrands (cd : CompanyAnalysis) (avoided : option (list string))
    : bool * string :=
  match avoided with
  | None | Some [] => (false, "")
  | Some brands =>
      let companyName := lower_or_empty (parentCompany cd) in
      let subs := map toLowerCase (or_nil (subsidiaries cd)) in
      checkLoop companyName subs brands
  end.

End Scorer.

Module Json.

(** JSON values as [JSON.parse] builds them; objects keep their
    properties in insertion order (a repeated key overwrites in place).
    Numbers are exact rationals. *)
Inductive json :=
| JNull
| JBool (b : bool)
| JNum (q : Q)
| JStr (s : string)
| JArr (l : list json)
| JObj (fields : list (string * json)).

(** [obj[k] = v] on the property list of an object. *)
Fixpoint set_prop (fields : list (string * json)) (k : string) (v : json) : list (string * json) :=
  match fields with
  | [] => [(k, v)]
  | (k', v') :: rest =>
      if String.eqb k k' then (k, v) :: rest else (k', v') :: set_prop rest k v
  end.

Fixpoint get_field (fields : list (string * json)) (k : string) : option json :=
  match fields with
  | [] => None
  | (k', v) :: rest => if String.eqb k k' then Some v else get_field rest k
  end.

(** [x.k] on a parsed value: [None] is [undefined]. *)
Definition prop (j : json) (k : string) : option json :=
  match j with JObj fields => get_field fields k | _ => None end.

(** JS truthiness of a property value ([undefined] is falsy). *)
Definition truthy (o : option json) : bool :=
  match o with
  | None | Some JNull => false
  | Some (JBool b) => b
  | Some (JNum q) => negb (Qeq_bool q 0)
  | Some (JStr s) => negb (String.eqb s "")
  | Some (JArr _) | Some (JObj _) => true
  end.

(** ** [JSON.parse] *)

Definition dquote : ascii := ascii_of_nat 34.

Definition json_ws (c : ascii) : bool :=
  let n := nat_of_ascii c in
  (n =? 32)%nat || (n =? 9)%nat || (n =? 10)%nat || (n =? 13)%nat.

Fixpoint skip_ws (s : string) : string :=
  match s with
  | String c s' => if json_ws c then skip_ws s' else s
  | EmptyString => s
  end.

Definition digit_val (c : ascii) : option nat :=
  let n := nat_of_ascii c in
  if andb (Nat.leb 48 n) (Nat.leb n 57) then Some (n - 48)%nat else None.

Definition hex_val (c : ascii) : option nat :=
  let n := nat_of_ascii c in
  if andb (Nat.leb 48 n) (Nat.leb n 57) then Some (n - 48)%nat
  else if andb (Nat.leb 65 n) (Nat.leb n 70) then Some (n - 55)%nat
  else if andb (Nat.leb 97 n) (Nat.leb n 102) then Some (n - 87)%nat
  else None.

(** The body of a string literal after its opening quote.  A [\uXXXX]
    escape is decoded when it denotes an ASCII character (code below 128),
    the characters of this model. *)
Fixpoint parse_chars (s : string) : option (string * string) :=
  match s with
  | EmptyString => None
  | String c s' =>
      if Ascii.eqb c dquote then Some (EmptyString, s')
      else if Ascii.eqb c "\"%char then
        match s' with
        | String e s'' =>
            let simple (d : ascii) :=
              match parse_chars s'' with
              | Some (str, r) => Some (String d str, r)
              | None => None
              end in
            if Ascii.eqb e dquote then simple dquote
            else if Ascii.eqb e "\"%char then simple "\"%char
            else if Ascii.eqb e "/"%char then simple "/"%char
            else if Ascii.eqb e "b"%char then simple (ascii_of_nat 8)
            else if Ascii.eqb e "f"%char then simple (ascii_of_nat 12)
            else if Ascii.eqb e "n"%char then simple (ascii_of_nat 10)
            else if Ascii.eqb e "r"%char then simple (ascii_of_nat 13)
            else if Ascii.eqb e "t"%char then simple (ascii_of_nat 9)
            else if Ascii.eqb e "u"%char then
              match s'' with
              | String h1 (String h2 (String h3 (String h4 rest))) =>
                  match hex_val h1, hex_val h2, hex_val h3, hex_val h4 with
                  | Some a, Some b, Some c0, Some d =>
                      let code := (a * 4096 + b * 256 + c0 * 16 + d)%nat in
                      if Nat.ltb code 128 then
                        match parse_chars rest with
                        | Some (str, r) => Some (String (ascii_of_nat code) str, r)
                        | None => None
                        end
                      else None
                  | _, _, _, _ => None
                  end
              | _ => None
              end
            else None
        | EmptyString => None
        end
      else if Nat.ltb (nat_of_ascii c) 32 then None
      else match parse_chars s' with
           | Some (str, r) => Some (String c str, r)
           | None => None
           end
  end.

(** A maximal run of decimal digits: its value, its length, the rest. *)
Fixpoint digits_acc (s : string) (v : Z) (n : nat) : Z * nat * string :=
  match s with
  | String c s' =>
      match digit_val c with
      | Some d => digits_acc s' (v * 10 + Z.of_nat d) (S n)
      | None => (v, n, s)
      end
  | EmptyString => (v, n, s)
  end.

(** [m * 10^e] as a rational. *)
Definition scale (m : Z) (e : Z) : Q :=
  if Z.leb 0 e then inject_Z (m * 10 ^ e) else Qmake m (Z.to_pos (10 ^ (- e))).

(** The exponent part [[eE][+-]?digits], absent when malformed. *)
Definition parse_exp (s : string) : option (Z * string) :=
  match s with
  | String c s' =>
      if Ascii.eqb c "e"%char || Ascii.eqb c "E"%char then
        let '(sign, s'') :=
          match s' with
          | String d r => if Ascii.eqb d "+"%char then (1, r)
                          else if Ascii.eqb d "-"%char then (-1, r) else (1, s')
          | EmptyString => (1, s')
          end in
        let '(v, n, r) := digits_acc s'' 0 0 in
        if Nat.eqb n 0 then None else Some (sign * v, r)
      else Some (0, s)
  | EmptyString => Some (0, s)
  end.

(** A JSON number literal: optional minus, [0] or a digit run without
    leading zero, optional fraction, optional exponent. *)
Definition parse_number (s : string) : option (Q * string) :=
  let '(neg, s1) :=
    match s with
    | String c r => if Ascii.eqb c "-"%char then (true, r) else (false, s)
    | EmptyString => (false, s)
    end in
  let '(ip, n, s2) := digits_acc s1 0 0 in
  let leading_zero_ok :=
    match s1 with
    | String c (String d _) => negb (Ascii.eqb c "0"%char) || Nat.eqb n 1
    | _ => true
    end in
  if Nat.eqb n 0 || negb leading_zero_ok then None else
  let frac :=
    match s2 with
    | String c r =>
        if Ascii.eqb c "."%char then
          let '(fv, fn, r') := digits_acc r 0 0 in
          if Nat.eqb fn 0 then None else Some (fv, fn, r')
        else Some (0, 0%nat, s2)
    | EmptyString => Some (0, 0%nat, s2)
    end in
  match frac with
  | None => None
  | Some (fv, fn, s3) =>
      match parse_exp s3 with
      | None => None
      | Some (e, s4) =>
          let m := ip * 10 ^ Z.of_nat fn + fv in
          let m := if neg then - m else m in
          Some (scale m (e - Z.of_nat fn), s4)
      end
  end.

Definition keyword (kw : string) (s : string) : option string :=
  if String.prefix kw s then Some (substring (String.length kw) (String.length s) s) else None.

Fixpoint parse_value (fuel : nat) (s : string) : option (json * string) :=
  match fuel with
  | O => None
  | S f =>
      match skip_ws s with
      | EmptyString => None
      | String c r as s0 =>
          if Ascii.eqb c "{"%char then
            match skip_ws r with
            | String d r' => if Ascii.eqb d "}"%char then Some (JObj [], r') else parse_members f r []
            | EmptyString => None
            end
          else if Ascii.eqb c "["%char then
            match skip_ws r with
            | String d r' => if Ascii.eqb d "]"%char then Some (JArr [], r') else parse_elems f r []
            | EmptyString => None
            end
          else if Ascii.eqb c dquote then
            match parse_chars r with
            | Some (str, r') => Some (JStr str, r')
            | None => None
            end
          else match keyword "true" s0 with
          | Some r' => Some (JBool true, r')
          | None => match keyword "false" s0 with
          | Some r' => Some (JBool false, r')
          | None => match keyword "null" s0 with
          | Some r' => Some (JNull, r')
          | None => match parse_number s0 with
                    | Some (q, r') => Some (JNum q, r')
                    | None => None
                    end
          end end end
      end
  end
with parse_members (fuel : nat) (s : string) (acc : list (string * json)) : option (json * string) :=
  match fuel with
  | O => None
  | S f =>
      match skip_ws s with
      | String c r =>
          if Ascii.eqb c dquote then
            match parse_chars r with
            | Some (k, r1) =>
                match skip_ws r1 with
                | String d r2 =>
                    if Ascii.eqb d ":"%char then
                      match parse_value f r2 with
                      | Some (v, r3) =>
                          let acc' := set_prop acc k v in
                          match skip_ws r3 with
                          | String e r4 =>
                              if Ascii.eqb e ","%char then parse_members f r4 acc'
                              else if Ascii.eqb e "}"%char then Some (JObj acc', r4)
                              else None
                          | EmptyString => None
                          end
                      | None => None
                      end
                    else None
                | EmptyString => None
                end
            | None => None
            end
          else None
      | EmptyString => None
      end
  end
with parse_elems (fuel : nat) (s : string) (acc : list json) : option (json * string) :=
  match fuel with
  | O => None
  | S f =>
      match parse_value f s with
      | Some (v, r) =>
          match skip_ws r with
          | String e r' =>
              if Ascii.eqb e ","%char then parse_elems f r' (acc ++ [v])
              else if Ascii.eqb e "]"%char then Some (JArr (acc ++ [v]), r')
              else None
          | EmptyString => None
          end
      | None => None
      end
  end.

(** [JSON.parse(text)]: [None] when it throws. *)
Definition JSON_parse (text : string) : option json :=
  match parse_value (S (String.length text)) text with
  | Some (v, r) => match skip_ws r with EmptyString => Some v | _ => None end
  | None => None
  end.

End Json.

Module Parser.
Import Json.

(** JS white space ([\s] and [trim]) among ASCII characters:
    TAB, LF, VT, FF, CR and SPACE. *)
Definition is_space (c : ascii) : bool :=
  let n := nat_of_ascii c in
  (n =? 9)%nat || (n =? 10)%nat || (n =? 11)%nat || (n =? 12)%nat || (n =? 13)%nat
  || (n =? 32)%nat.

Fixpoint trimStart (s : string) : string :=
  match s with
  | String c s' => if is_space c then trimStart s' else s
  | EmptyString => s
  end.

Definition rev_string (s : string) : string := string_of_list_ascii (rev (list_ascii_of_string s)).

Definition trim (s : string) : string := rev_string (trimStart (rev_string (trimStart s))).

Definition fence : string := "```".

(** [s.replace(/^```json\s*/i, '')] *)
Definition strip_json_fence (s : string) : string :=
  if startsWith s fence && String.eqb (toLowerCase (substring 3 4 s)) "json"
     && Nat.leb 7 (String.length s)
  then trimStart (substring 7 (String.length s) s) else s.

(** [s.replace(/^```\s*/, '')] *)
Definition strip_open_fence (s : string) : string :=
  if startsWith s fence then trimStart (substring 3 (String.length s) s) else s.

Fixpoint all_space (s : string) : bool :=
  match s with
  | EmptyString => true
  | String c s' => is_space c && all_space s'
  end.

(** [s.replace(/```\s*$/, '')]: the leftmost position where a fence is
    followed only by white space is cut off with everything after it. *)
Fixpoint strip_close_fence (s : string) : string :=
  if startsWith s fence && all_space (substring 3 (String.length s) s) then EmptyString
  else match s with
       | EmptyString => EmptyString
       | String c s' => String c (strip_close_fence s')
       end.

(** The unwrapping steps of [parseClaudeResponse], before [JSON.parse]. *)
Definition unwrap (text : string) : string :=
  let cleanText := trim text in
  let cleanText := strip_json_fence cleanText in
  let cleanText := strip_open_fence cleanText in
  let cleanText := strip_close_fence cleanText in
  trim cleanText.

(** ** [validateAndCleanData] *)

(** [\w] of a non-unicode JS regex. *)
Definition is_word (c : ascii) : bool :=
  let n := nat_of_ascii c in
  (andb (Nat.leb 48 n) (Nat.leb n 57)) || (andb (Nat.leb 65 n) (Nat.leb n 90))
  || (andb (Nat.leb 97 n) (Nat.leb n 122)) || (n =? 95)%nat.

Definition prev_non_word (prev : option ascii) : bool :=
  match prev with None => true | Some p => negb (is_word p) end.

Definition next_non_word (s : string) : bool :=
  match s with EmptyString => true | String c _ => negb (is_word c) end.

Definition four_digits (a b c d : ascii) : option Z :=
  match digit_val a, digit_val b, digit_val c, digit_val d with
  | Some x, Some y, Some z, Some w => Some (Z.of_nat (x * 1000 + y * 100 + z * 10 + w))
  | _, _, _, _ => None
  end.

(** [concern.match(/\b(19|20)\d{2}\b/)] read through [parseInt]: the
    value of the leftmost match, scanning with the previous character. *)
Fixpoint yearMatch (prev : option ascii) (s : string) : option Z :=
  match s with
  | EmptyString => None
  | String a s' =>
      let here :=
        match s' with
        | String b (String c (String d rest)) =>
            if prev_non_word prev && next_non_word rest
               && ((Ascii.eqb a "1"%char && Ascii.eqb b "9"%char)
                   || (Ascii.eqb a "2"%char && Ascii.eqb b "0"%char))
            then four_digits a b c d else None
        | _ => None
        end in
      match here with
      | Some y => Some y
      | None => yearMatch (Some a) s'
      end
  end.

(** The word-bounded 4-digit tokens of a string, in order (a year token
    in the spec's sense: [\b\d{4}\b]). *)
Fixpoint yearTokens (prev : option ascii) (s : string) : list Z :=
  match s with
  | EmptyString => []
  | String a s' =>
      let here :=
        match s' with
        | String b (String c (String d rest)) =>
            if prev_non_word prev && next_non_word rest then
              match four_digits a b c d with Some y => [y] | None => [] end
            else []
        | _ => []
        end in
      here ++ yearTokens (Some a) s'
  end.

(** The [filter] callback on [factualConcerns]; [currentYear] is
    [new Date().getFullYear()]. *)
Definition keepConcern (currentYear : Z) (concern : json) : bool :=
  match concern with
  | JStr s =>
      let year_ok :=
        match yearMatch None s with
        | Some year => negb ((year <? 1800) || (currentYear <? year))
        | None => true
        end in
      year_ok && negb (includes s "example" || includes s "placeholder")
  | _ => false
  end.

(** [str.split(/\s+/)] *)
Fixpoint splitWs (s : string) (cur : string) (skipping : bool) : list string :=
  match s with
  | EmptyString => [cur]
  | String c s' =>
      if is_space c then
        (if skipping then splitWs s' "" true else cur :: splitWs s' "" true)
      else splitWs s' (cur ++ String c EmptyString) false
  end.

Definition impactFallback : string :=
  "Exploring alternatives helps support diverse business ownership and strengthens local economies.".

(** The repetition check on [impactExplanation]:
    [words.length > 10 && uniqueWords.size / words.length < 0.5]. *)
Definition repetitive (expl : string) : bool :=
  let words := splitWs (toLowerCase expl) "" false in
  let unique := List.length (nodup string_dec words) in
  Nat.ltb 10 (List.length words) && Nat.ltb (2 * unique) (List.length words).

Definition validateAndCleanData (currentYear : Z) (fields : list (string * json))
    : list (string * json) :=
  let fields :=
    match get_field fields "factualConcerns" with
    | Some (JArr l) as v =>
        if truthy v then set_prop fields "factualConcerns" (JArr (List.filter (keepConcern currentYear) l))
        else fields
    | _ => fields
    end in
  match get_field fields "impactExplanation" with
  | Some (JStr e) as v =>
      if truthy v && repetitive e then set_prop fields "impactExplanation" (JStr impactFallback)
      else fields
  | _ => fields
  end.

(** [parsed.k = parsed.k || d] *)
Definition default_prop (fields : list (string * json)) (k : string) (d : json) :=
  if truthy (get_field fields k) then fields else set_prop fields k d.

Definition arrayFields : list string :=
  ["factualConcerns"; "certifications"; "subsidiaries";
   "suggestedStoreTypes"; "suggestedStoreNames"; "googlePlacesTypes"].

Inductive parse_result := ParseOk (analysis : json) | ParseError.

(** [parseClaudeResponse], over the [JSON.parse] it calls. *)
Definition parseClaudeResponse (JSON_parse : string -> option json) (currentYear : Z)
    (text : string) : parse_result :=
  match JSON_parse (unwrap text) with
  | None => ParseError
  | Some parsed =>
      match parsed with
      | JObj fields =>
          if negb (truthy (get_field fields "parentCompany")) then ParseError else
          let fields := fold_left (fun f k => default_prop f k (JArr [])) arrayFields fields in
          let fields := default_prop fields "companySize" (JStr "unknown") in
          let fields := default_prop fields "ownershipType" (JStr "unknown") in
          ParseOk (JObj (validateAndCleanData currentYear fields))
      | _ => ParseError  (* [parsed.parentCompany] is undefined or throws *)
      end
  end.

End Parser.

(** ** Places, as returned by the places provider. *)

(** [displayName] is a localized text [{ text }]. *)
Record localizedText := mkText { text : option string }.

Record place := mkPlace {
  placeId : option string;                (* place.id *)
  displayName : option localizedText;
  types : option (list string);
  businessStatus : option string
}.

(** [place.displayName?.text || ''] *)
Definition nameText (p : place) : string :=
  match displayName p with
  | Some {| text := Some s |} => s
  | _ => ""
  end.

Module Aggregator.

(** The three locals shared by the strategies of [findLocalAlternatives]:
    [allPlaces], [seenPlaceIds], and a ghost log [fed] of every place
    handed to [addUniquePlaces] (not in the source; it only records the
    discovery order for the statements). *)
Record aggState := mkAgg {
  allPlaces : list place;
  seenPlaceIds : gset (option string);
  fed : list place
}.

Definition emptyAgg : aggState := mkAgg [] ∅ [].

Definition addUniquePlace (st : aggState) (p : place) : aggState :=
  if decide (placeId p ∈ seenPlaceIds st) then mkAgg (allPlaces st) (seenPlaceIds st) (fed st ++ [p])
  else mkAgg (allPlaces st ++ [p]) ({[placeId p]} ∪ seenPlaceIds st) (fed st ++ [p]).

(** [addUniquePlaces(allPlaces, newPlaces, seenPlaceIds)] *)
Definition addUniquePlaces (st : aggState) (newPlaces : list place) : aggState :=
  fold_left addUniquePlace newPlaces st.

(** The inputs of one run that the merge reads. *)
Record analysisInput := mkInput {
  suggestedStoreTypes : option (list string);
  suggestedStoreNames : option (list string);
  googlePlacesTypes : option (list string)
}.

(** The merge part of [findLocalAlternatives] (three strategies), over
    the provider searches [searchPlacesByType] and [searchPlacesByName]. *)
Definition mergeStrategies
    (searchPlacesByType : string -> list string -> list place)
    (searchPlacesByName : string -> list place)
    (productCategory : string) (analysis : analysisInput) : aggState :=
  (* includedTypes defaults to ['store'] when undefined is passed *)
  let gtypes := match googlePlacesTypes analysis with Some l => l | None => ["store"] end in
  let st := fold_left (fun st storeType => addUniquePlaces st (searchPlacesByType storeType gtypes))
              (firstn 2 (or_nil (suggestedStoreTypes analysis))) emptyAgg in
  let st := fold_left (fun st storeName => addUniquePlaces st (searchPlacesByName storeName))
              (firstn 2 (or_nil (suggestedStoreNames analysis))) st in
  if Nat.ltb (List.length (allPlaces st)) 3 && negb (String.eqb productCategory "") then
    addUniquePlaces st (searchPlacesByType productCategory ["store"])
  else st.

(** Discovery order of first occurrences: a place is kept exactly when
    no earlier place of the stream has its id. *)
Fixpoint firstOccurrences (earlier : list place) (l : list place) : list place :=
  match l with
  | [] => []
  | p :: rest =>
      (if existsb (fun q => bool_decide (placeId q = placeId p)) earlier then [] else [p])
      ++ firstOccurrences (earlier ++ [p]) rest
  end.

End Aggregator.

Module Ranker.

Definition bigBoxRetailers : list string :=
  ["walmart"; "target"; "best buy"; "bestbuy"; "amazon";
   "home depot"; "homedepot"; "lowe's"; "lowes"; "costco";
   "sam's club"; "sams club"; "bj's"; "bjs wholesale";
   "kohls"; "kohl's"; "jcpenney"; "jc penney"; "sears";
   "macy's"; "macys"; "dick's sporting goods"; "dicks sporting goods";
   "staples"; "office depot"; "petsmart"; "petco"; "cvs"; "walgreens"].

Definition irrelevantTypes : list string :=
  ["library"; "school"; "university"; "hospital"; "church"; "mosque";
   "synagogue"; "cemetery"; "park"; "stadium"; "museum"; "art_gallery";
   "movie_theater"; "bowling_alley"; "casino"; "night_club"; "bar";
   "furniture_store"; "car_dealer"; "car_repair"; "gas_station";
   "atm"; "bank"; "insurance_agency"; "real_estate_agency"].

(** [categorySpecificFilters]: [exclude] and [excludeNames]. *)
Record catFilters := mkFilters { exclude : option (list string); excludeNames : option (list string) }.

Definition categorySpecificFilters (categoryLower : string) : catFilters :=
  let f := mkFilters None None in
  let f := if includes categoryLower "luggage" || includes categoryLower "bag"
              || includes categoryLower "travel"
           then mkFilters (Some ["furniture_store"]) (Some ["furniture"; "sofa"; "couch"]) else f in
  if includes categoryLower "bottle" || includes categoryLower "drinkware"
  then mkFilters (Some ["plumber"; "hardware_store"]) (Some ["plumbing"; "supply"]) else f.

Definition mem (x : string) (l : list string) : bool := existsb (String.eqb x) l.

(** The [filter] callback. *)
Definition keepPlace (f : catFilters) (currentSiteLower : string) (p : place) : bool :=
  let closed := match businessStatus p with
                | Some s => String.eqb s "CLOSED_PERMANENTLY" || String.eqb s "CLOSED_TEMPORARILY"
                | None => false end in
  if closed then false else
  let placeName := toLowerCase (nameText p) in
  if negb (String.eqb currentSiteLower "")
     && (includes placeName currentSiteLower || includes currentSiteLower (firstWord placeName))
  then false else
  if existsb (fun retailer => includes placeName retailer) bigBoxRetailers then false else
  let placeTypes := or_nil (types p) in
  if existsb (fun t => mem t irrelevantTypes) placeTypes then false else
  if (match exclude f with Some ex => existsb (fun t => mem t ex) placeTypes | None => false end)
  then false else
  if (match excludeNames f with
      | Some kws => existsb (fun kw => includes placeName kw) kws
      | None => false end)
  then false else true.

Definition relevantTypes : list (string * list string) :=
  [("sporting_goods_store", ["water bottle"; "fitness"; "outdoor"; "camping"; "sports"]);
   ("clothing_store", ["clothing"; "apparel"; "shirt"; "pants"; "dress"; "fashion"]);
   ("grocery_store", ["food"; "grocery"; "snack"; "beverage"; "coffee"; "tea"]);
   ("supermarket", ["food"; "grocery"; "snack"; "beverage"]);
   ("convenience_store", ["snack"; "beverage"; "coffee"]);
   ("home_goods_store", ["home"; "kitchen"; "furniture"; "decor"]);
   ("electronics_store", ["electronics"; "phone"; "computer"; "tech"]);
   ("book_store", ["book"; "reading"; "magazine"])].

(** A scored candidate: the place spread into the result, with its
    [relevanceScore] (the derived display fields are not modelled). *)
Record scored := mkScored { candidate : place; relevanceScore : Z }.

Definition relevance (categoryLower : string) (p : place) : Z :=
  let placeTypes := or_nil (types p) in
  let s := fold_left (fun s '(storeType, keywords) =>
             if mem storeType placeTypes then
               if existsb (fun kw => includes categoryLower kw) keywords then s + 10 else s + 2
             else s) relevantTypes 0 in
  if mem "store" placeTypes then s + 1 else s.

(** [Array.prototype.sort] with comparator [b.relevanceScore -
    a.relevanceScore]: a stable sort, descending by score. *)
Fixpoint insertDesc (x : scored) (l : list scored) : list scored :=
  match l with
  | [] => [x]
  | y :: r => if relevanceScore x <=? relevanceScore y then y :: insertDesc x r else x :: y :: r
  end.

Definition sortDesc (l : list scored) : list scored :=
  fold_left (fun acc x => insertDesc x acc) l [].

Definition filterAndScorePlaces (places : list place) (productCategory : string)
    (currentSite : option string) : list scored :=
  let categoryLower := toLowerCase productCategory in
  let currentSiteLower := match currentSite with Some s => toLowerCase s | None => "" end in
  let f := categorySpecificFilters categoryLower in
  sortDesc (map (fun p => mkScored p (relevance categoryLower p))
                (List.filter (keepPlace f currentSiteLower) places)).

End Ranker.

Module PriceScraper.
Import Json.

(** JS numbers as [parseFloat] yields them; finite values are exact
    rationals (double rounding and overflow are not modelled). *)
Inductive jsnum := NaN | Inf (neg : bool) | Fin (q : Q).

(** [parseFloat(s)]: the longest prefix, after leading white space, that
    is a signed [Infinity] or decimal literal. *)
Definition parseFloat (s : string) : jsnum :=
  let s1 := Parser.trimStart s in
  let '(neg, s2) :=
    match s1 with
    | String c r => if Ascii.eqb c "-"%char then (true, r)
                    else if Ascii.eqb c "+"%char then (false, r) else (false, s1)
    | EmptyString => (false, s1)
    end in
  if startsWith s2 "Infinity" then Inf neg else
  let '(ip, n, s3) := digits_acc s2 0 0 in
  let '(fv, fn, s4) :=
    match s3 with
    | String c r => if Ascii.eqb c "."%char then digits_acc r 0 0 else (0, 0%nat, s3)
    | EmptyString => (0, 0%nat, s3)
    end in
  if Nat.eqb (n + fn) 0 then NaN else
  let e := match parse_exp s4 with Some (e, _) => e | None => 0 end in
  let m := ip * 10 ^ Z.of_nat fn + fv in
  Fin (scale (if neg then - m else m) (e - Z.of_nat fn)).

(** [parseFloat(v)] on a JSON value, through [String(v)]. *)
Fixpoint parseFloat_json (v : json) : jsnum :=
  match v with
  | JNum q => Fin q
  | JStr s => parseFloat s
  | JArr l => match l with x :: _ => parseFloat_json x | [] => NaN end
  | JNull | JBool _ | JObj _ => NaN
  end.

(** [s.split(pat)] at the first occurrence: the text before and after. *)
Fixpoint splitAt (pat s : string) : option (string * string) :=
  if startsWith s pat then Some (EmptyString, substring (String.length pat) (String.length s) s)
  else match s with
       | EmptyString => None
       | String c s' =>
           match splitAt pat s' with
           | Some (b, a) => Some (String c b, a)
           | None => None
           end
       end.

Definition q1 : string := String dquote EmptyString.
Definition ldOpen : string := "<script type=" ++ q1 ++ "application/ld+json" ++ q1 ++ ">".
Definition ldClose : string := "</script>".

(** The global, dot-all match of a JSON-LD script element (lazy body)
    followed by stripping the two tags from each match: the bodies. *)
Fixpoint ldBodies (fuel : nat) (s : string) : list string :=
  match fuel with
  | O => []
  | S f =>
      match splitAt ldOpen s with
      | None => []
      | Some (_, after) =>
          match splitAt ldClose after with
          | None => []
          | Some (body, rest) => body :: ldBodies f rest
          end
      end
  end.

(** [data.offers.price || data.offers[0]?.price] *)
Definition offersPrice (offers : json) : option json :=
  let direct := prop offers "price" in
  if truthy direct then direct else
  let first :=
    match offers with
    | JArr (x :: _) => Some x
    | JObj fields => get_field fields "0"
    | _ => None
    end in
  match first with Some x => prop x "price" | None => None end.

(** Method 1: the JSON-LD Product blocks. *)
Fixpoint method1 (bodies : list string) : option jsnum :=
  match bodies with
  | [] => None
  | jsonStr :: rest =>
      match JSON_parse jsonStr with
      | Some data =>
          let offers := prop data "offers" in
          if (match prop data "@type" with Some (JStr t) => String.eqb t "Product" | _ => false end)
             && truthy offers then
            match offers with
            | Some o => let price := offersPrice o in
                        match price with
                        | Some pv => if truthy price then Some (parseFloat_json pv) else method1 rest
                        | None => method1 rest
                        end
            | None => method1 rest
            end
          else method1 rest
      | None => method1 rest
      end
  end.

(** ** The fallback patterns *)

Definition isDigit (c : ascii) : bool := match digit_val c with Some _ => true | None => false end.

Fixpoint digitRun (s : string) : nat :=
  match s with String c s' => if isDigit c then S (digitRun s') else O | EmptyString => O end.

Definition dropS (n : nat) (s : string) : string := substring n (String.length s) s.

(** The number of consecutive [,\d{3}] groups at the head of [s]. *)
Fixpoint commaGroups (fuel : nat) (s : string) : nat :=
  match fuel with
  | O => O
  | S f =>
      match s with
      | String c (String a (String b (String d r))) =>
          if Ascii.eqb c ","%char && isDigit a && isDigit b && isDigit d
          then S (commaGroups f r) else O
      | _ => O
      end
  end.

Definition dotTwo (s : string) : bool :=
  match s with
  | String c (String a (String b _)) => Ascii.eqb c "."%char && isDigit a && isDigit b
  | _ => false
  end.

(** Length matched by [\d{1,4}(?:,\d{3})*(?:\.\d{2})] at the head of [t],
    trying [\d{1,4}] and the star greedily with backtracking. *)
Definition dollarAt (t : string) : option nat :=
  let tryN (n : nat) : option nat :=
    let t1 := dropS n t in
    let g := commaGroups (String.length t1) t1 in
    let fix tryK (k : nat) : option nat :=
      let here := if dotTwo (dropS (4 * k) t1) then Some (n + 4 * k + 3)%nat else None in
      match here with
      | Some m => Some m
      | None => match k with O => None | S k' => tryK k' end
      end in
    tryK g in
  let fix tryNs (n : nat) : option nat :=
    match n with
    | O => None
    | S n' => match tryN n with Some m => Some m | None => tryNs n' end
    end in
  tryNs (Nat.min 4 (digitRun t)).

(** [html.match(/\$(\d{1,4}(?:,\d{3})*(?:\.\d{2}))/g)]: every match. *)
Fixpoint dollarMatches (fuel : nat) (s : string) : list string :=
  match fuel with
  | O => []
  | S f =>
      match s with
      | EmptyString => []
      | String c s' =>
          if Ascii.eqb c "$"%char then
            match dollarAt s' with
            | Some k => ("$" ++ substring 0 k s') :: dollarMatches f (dropS k s')
            | None => dollarMatches f s'
            end
          else dollarMatches f s'
      end
  end.

(** [\d+\.?\d*] at the head of [t]: the group and the rest. *)
Definition numGroup (t : string) : option (string * string) :=
  let n := digitRun t in
  if Nat.eqb n 0 then None else
  let r := dropS n t in
  match r with
  | String c r' =>
      if Ascii.eqb c "."%char then
        let m := digitRun r' in
        Some (substring 0 (n + 1 + m) t, dropS m r')
      else Some (substring 0 n t, r)
  | EmptyString => Some (t, EmptyString)
  end.

(** Leftmost match of a literal followed by [tail]. *)
Fixpoint leftmost (lit : string) (tail : string -> option string) (s : string) : option string :=
  let here := if startsWith s lit then tail (dropS (String.length lit) s) else None in
  match here with
  | Some g => Some g
  | None => match s with EmptyString => None | String _ s' => leftmost lit tail s' end
  end.

(** The JSON-ish pattern: the quoted key price and a colon, white space,
    an optional quote, then group 1 [\d+\.?\d*]. *)
Definition priceJsonTail (t : string) : option string :=
  let t := Parser.trimStart t in
  let t := match t with
           | String c r => if Ascii.eqb c dquote then r else t
           | EmptyString => t end in
  match numGroup t with Some (g, _) => Some g | None => None end.

Definition contentLit : string := "content=" ++ q1.

(** The attribute tail: [[^>]*], the literal content= and a quote, group 1
    [\d+\.?\d*], a closing quote.  [[^>]*] is greedy, so the last such
    attribute before the first [>] that completes wins. *)
Definition attrTail (t : string) : option string :=
  let stop := match splitAt ">" t with Some (b, _) => String.length b | None => String.length t end in
  let tryAt (j : nat) : option string :=
    let u := dropS j t in
    if startsWith u contentLit then
      match numGroup (dropS (String.length contentLit) u) with
      | Some (g, String c _) => if Ascii.eqb c dquote then Some g else None
      | _ => None
      end
    else None in
  let fix down (j : nat) : option string :=
    match tryAt j with
    | Some g => Some g
    | None => match j with O => None | S j' => down j' end
    end in
  down stop.

(** What [match[1]] yields for a pattern: no match, or group 1 (where
    [None] is [undefined]). *)
Inductive hit := NoMatch | Group (g : option string).

Definition patternHits (html : string) : list hit :=
  let all := dollarMatches (String.length html) html in
  [ (match all with [] => NoMatch | _ => Group (nth_error all 1) end);
    (match leftmost (q1 ++ "price" ++ q1 ++ ":") priceJsonTail html with
     | Some g => Group (Some g) | None => NoMatch end);
    (match leftmost ("itemprop=" ++ q1 ++ "price" ++ q1) attrTail html with
     | Some g => Group (Some g) | None => NoMatch end);
    (match leftmost ("property=" ++ q1 ++ "product:price:amount" ++ q1) attrTail html with
     | Some g => Group (Some g) | None => NoMatch end) ].

(** [s.replace(/,/g, '')] *)
Fixpoint removeCommas (s : string) : string :=
  match s with
  | EmptyString => EmptyString
  | String c s' => if Ascii.eqb c ","%char then removeCommas s' else String c (removeCommas s')
  end.

Definition gt100 (x : jsnum) : bool :=
  match x with Fin q => negb (Qle_bool q 100) | Inf neg => negb neg | NaN => false end.

Definition div100 (x : jsnum) : jsnum :=
  match x with Fin q => Fin (q / 100) | _ => x end.

(** [price >= 5 && price <= 1000] *)
Definition inBounds (x : jsnum) : bool :=
  match x with Fin q => Qle_bool 5 q && Qle_bool q 1000 | _ => false end.

(** Method 2.  [Group None] makes [match[1].replace] throw, and the outer
    [catch] returns [null]. *)
Fixpoint method2 (hits : list hit) : option jsnum :=
  match hits with
  | [] => None
  | NoMatch :: rest => method2 rest
  | Group None :: _ => None
  | Group (Some g) :: rest =>
      let priceStr := removeCommas g in
      let price := parseFloat priceStr in
      let price := if negb (includes priceStr ".") && gt100 price then div100 price else price in
      if inBounds price then Some price else method2 rest
  end.

(** [scrapePriceFromPage(url)] given what the fetch produced: [None] when
    it throws (network error or the 5 s abort), else [response.ok] and the
    page text.  The result is the number formatted by [toFixed(2)], or
    [None] for [null]. *)
Definition scrapePriceFromPage (response : option (bool * string)) : option jsnum :=
  match response with
  | None => None
  | Some (ok, html) =>
      if negb ok then None else
      match method1 (ldBodies (String.length html) html) with
      | Some v => Some v
      | None => method2 (patternHits html)
      end
  end.

End PriceScraper.

(** * Properties of the alignment scorer *)

(** * Local search: search radius, location bonus and the entry point *)

Module LocalSearch.
Import Aggregator Ranker PriceScraper.

(** [userLocation]: [lat] and [lon] are [undefined] ([None]) or numbers. *)
Record location := mkLoc { lat : option Q; lon : option Q }.

(** [!x] on a number that may be [undefined]. *)
Definition falsyNum (x : option Q) : bool :=
  match x with Some q => Qeq_bool q 0 | None => true end.

(** [majorCities]: [latMin], [latMax], [lonMin], [lonMax] and [radius]
    (the decimal literals are taken as exact rationals). *)
Record city := mkCity { latMin : Q; latMax : Q; lonMin : Q; lonMax : Q; radius : Z }.

Definition majorCities : list city :=
  [mkCity 37.2 37.9 (-122.6) (-121.7) 5000;   (* SF Bay Area *)
   mkCity 40.5 40.9 (-74.3) (-73.7) 5000;     (* NYC *)
   mkCity 33.7 34.3 (-118.7) (-118.1) 5000;   (* LA *)
   mkCity 41.6 42.0 (-87.9) (-87.5) 5000;     (* Chicago *)
   mkCity 42.2 42.5 (-71.3) (-70.9) 5000;     (* Boston *)
   mkCity 47.4 47.8 (-122.5) (-122.2) 5000].  (* Seattle *)

Definition inCity (la lo : Q) (c : city) : bool :=
  Qle_bool (latMin c) la && Qle_bool la (latMax c) && Qle_bool (lonMin c) lo && Qle_bool lo (lonMax c).

(** [determineSearchRadius(userLocation)] *)
Definition determineSearchRadius (la lo : Q) : Z :=
  match find (inCity la lo) majorCities with
  | Some c => radius c
  | None => 10000
  end.

(** JS truthiness and [x < q] on a number. *)
Definition numTruthy (x : jsnum) : bool :=
  match x with Fin d => negb (Qeq_bool d 0) | Inf _ => true | NaN => false end.

Definition numLt (x : jsnum) (q : Q) : bool :=
  match x with Fin d => negb (Qle_bool q d) | Inf neg => neg | NaN => false end.

(** [calculateLocationBonus(distance)]; [None] is [undefined] or [null]. *)
Definition calculateLocationBonus (distance : option jsnum) : Z :=
  match distance with
  | None => 0
  | Some d =>
      if negb (numTruthy d) || numLt d 0 then 0
      else if numLt d 2 then 30
      else if numLt d 5 then 20
      else if numLt d 10 then 10
      else 0
  end.

(** [findLocalAlternatives(productCategory, userLocation, analysis,
    currentSite)], over [CONFIG.GOOGLE_PLACES_API_KEY] being set and the
    Places text search [searchPlacesByType(userLocation, searchTerm,
    includedTypes, searchRadius)], which catches its own errors and
    returns a list.  [productCategory] is [undefined] ([None]) when the
    analysis has none: [filterAndScorePlaces] then throws on
    [productCategory.toLowerCase()] and the [catch] returns []. *)
Definition findLocalAlternatives (placesKey : bool)
    (searchPlacesByType : location -> string -> list string -> Z -> list place)
    (productCategory : option string) (userLocation : option location)
    (analysis : analysisInput) (currentSite : option string) : list scored :=
  match userLocation with
  | None => []
  | Some loc =>
      if falsyNum (lat loc) || falsyNum (lon loc) then [] else
      if negb placesKey then [] else
      match lat loc, lon loc with
      | Some la, Some lo =>
          let searchRadius := determineSearchRadius la lo in
          (* searchPlacesByName(userLocation, storeName, searchRadius) *)
          let byName := fun storeName => searchPlacesByType loc storeName [] searchRadius in
          let st := mergeStrategies (fun t types => searchPlacesByType loc t types searchRadius)
                      byName (match productCategory with Some c => c | None => "" end) analysis in
          match productCategory with
          | None => []
          | Some cat => firstn 3 (filterAndScorePlaces (allPlaces st) cat currentSite)
          end
      | _, _ => []
      end
  end.

End LocalSearch.

(** * Online alternatives: [isMegaCorp], [extractBusinessName] and
    [findSmallOnlineRetailers] *)

Module Online.
Import PriceScraper.

Definition MEGA_CORP_DOMAINS : list string :=
  ["amazon"; "walmart"; "target"; "bestbuy"; "ebay";
   "alibaba"; "aliexpress"; "wish"; "macys"; "kohls";
   "jcpenney"; "sears"; "costco"; "samsclub"; "bjs";
   "homedepot"; "lowes"; "staples"; "officedepot";
   "petsmart"; "petco"; "cvs"; "walgreens"; "riteaid"].

(** [isMegaCorp(domain)] *)
Definition isMegaCorp (domain : string) : bool :=
  let domainLower := toLowerCase domain in
  existsb (fun mega => includes domainLower mega) MEGA_CORP_DOMAINS.

(** [s.split(sep)] for a non-empty string separator: the pieces between
    successive occurrences, left to right. *)
Fixpoint splitN (fuel : nat) (sep s : string) : list string :=
  match fuel with
  | O => [s]
  | S f =>
      match splitAt sep s with
      | Some (b, a) => b :: splitN f sep a
      | None => [s]
      end
  end.

Definition jsSplit (sep s : string) : list string := splitN (S (String.length s)) sep s.

(** [s.replace(pat, rep)] with a string pattern: the first occurrence. *)
Definition replaceFirst (pat rep s : string) : string :=
  match splitAt pat s with
  | Some (b, a) => b ++ rep ++ a
  | None => s
  end.

(** [c.toUpperCase()] on an ASCII character. *)
Definition upper_char (c : ascii) : ascii :=
  let n := nat_of_ascii c in
  if andb (Nat.leb 97 n) (Nat.leb n 122) then ascii_of_nat (n - 32) else c.

(** [w.charAt(0).toUpperCase() + w.slice(1)] *)
Definition capitalize (w : string) : string :=
  match w with
  | EmptyString => EmptyString
  | String c r => String (upper_char c) r
  end.

Definition separators : list string := [" - "; " | "; ": "; " : "].

(** [extractBusinessName(title, domain)] *)
Definition extractBusinessName (title domain : string) : string :=
  match find (fun sep => includes title sep) separators with
  | Some sep =>
      let parts := jsSplit sep title in
      Parser.trim (List.last parts "")
  | None =>
      String.concat " "
        (map capitalize
           (jsSplit "-" (List.hd "" (jsSplit "." (replaceFirst ".com" "" (replaceFirst "www." "" domain))))))
  end.

Definition irrelevantDomains : list string :=
  ["reddit"; "quora"; "youtube"; "facebook"; "instagram"; "twitter"; "pinterest";
   "tiktok"; "wikipedia"; "ebay"; "comparison"; "review"; "deals"; "coupons";
   "packagefree"; "earthhero"; "treehugger"; "sustainablejungle"; "greenmatters"].

(** A web search result: [item.url], [item.title], [item.description]. *)
Record searchItem := mkItem {
  itemUrl : string;
  itemTitle : option string;
  itemDescription : option string
}.

(** An alternative pushed by the loop (the constant fields [type],
    [typeLabel], [rating], [availability], [source], [isReal] and the
    display string [priceDisplay] are not modelled). *)
Record onlineAlt := mkAlt {
  altName : string;
  altUrl : string;
  altDescription : option string;
  altPrice : option jsnum;
  hasPrice : bool
}.

Section Retailers.
(** [new URL(url).hostname]: [None] when the URL constructor throws. *)
Variable hostnameOf : string -> option string.
(** What [fetch(url)] produces for the price scraper (see
    [scrapePriceFromPage]). *)
Variable fetchPage : string -> option (bool * string).

(** The [for ... of] loop over the results; [None] when an iteration
    throws (bad URL, or a result without a title), which the outer
    [catch] turns into []. *)
Fixpoint processResults (productName : string) (items : list searchItem) : option (list onlineAlt) :=
  match items with
  | [] => Some []
  | item :: rest =>
      match hostnameOf (itemUrl item) with
      | None => None
      | Some domain =>
          if isMegaCorp domain then processResults productName rest else
          let domainLower := toLowerCase domain in
          if existsb (fun d => includes domainLower d) irrelevantDomains
          then processResults productName rest else
          match itemTitle item with
          | None => None
          | Some title =>
              let titleLower := toLowerCase title in
              let descLower := toLowerCase (match itemDescription item with
                                            | Some d => d | None => "" end) in
              let productFirstWord := firstWord (toLowerCase productName) in
              if negb (includes titleLower productFirstWord)
                 && Nat.ltb (String.length descLower) 50
              then processResults productName rest else
              let businessName := extractBusinessName title domain in
              let price := scrapePriceFromPage (fetchPage (itemUrl item)) in
              match processResults productName rest with
              | None => None
              | Some alts =>
                  Some (mkAlt businessName (itemUrl item) (itemDescription item) price
                          (match price with Some _ => true | None => false end) :: alts)
              end
          end
      end
  end.

(** The comparator of [alternatives.sort]. *)
Definition priceFirst (a b : onlineAlt) : Z :=
  if hasPrice a && negb (hasPrice b) then -1
  else if negb (hasPrice a) && hasPrice b then 1
  else 0.

(** [Array.prototype.sort] with a comparator: a stable sort, here by
    insertion. *)
Fixpoint insertBy {A} (cmp : A -> A -> Z) (x : A) (l : list A) : list A :=
  match l with
  | [] => [x]
  | y :: r => if cmp x y <? 0 then x :: y :: r else y :: insertBy cmp x r
  end.

Definition sortBy {A} (cmp : A -> A -> Z) (l : list A) : list A :=
  fold_left (fun acc x => insertBy cmp x acc) l [].

(** [findSmallOnlineRetailers(productName, productCategory)], over
    [CONFIG.BRAVE_SEARCH_API_KEY] and what the search request produced:
    [None] when it throws, else [response.ok] and [data.web.results]
    ([None] when [data.web] or its [results] is missing). *)
Definition findSmallOnlineRetailers (braveKey : option string)
    (response : option (bool * option (list searchItem)))
    (productName : string) (productCategory : string) : list onlineAlt :=
  match braveKey with
  | None => []
  | Some key =>
      if String.eqb key "" || String.eqb key "YOUR_BRAVE_SEARCH_API_KEY" then [] else
      match response with
      | None => []
      | Some (ok, results) =>
          if negb ok then [] else
          match results with
          | None | Some [] => []
          | Some items =>
              match processResults productName (firstn 8 items) with
              | None => []
              | Some alternatives => firstn 2 (sortBy priceFirst alternatives)
              end
          end
      end
  end.

End Retailers.

End Online.

Module ScorerFacts.
Import Scorer.

Fixpoint sumDeltas (l : list entry) : Z :=
  match l with [] => 0 | e :: r => change e + sumDeltas r end.

(** The sum of the bonus (positive) deltas. *)
Fixpoint sumBonuses (l : list entry) : Z :=
  match l with [] => 0 | e :: r => Z.max 0 (change e) + sumBonuses r end.

(** The running score is 100 plus the deltas pushed so far. *)
Definition consistent (a : acc) : Prop := score a = 100 + sumDeltas (breakdown a).

Lemma sumDeltas_app l1 l2 : sumDeltas (l1 ++ l2) = sumDeltas l1 + sumDeltas l2.
Proof. induction l1 as [|e l1 IH]; cbn; lia. Qed.

Lemma step_consistent a d r : consistent a -> consistent (step a d r d).
Proof. unfold consistent, step; cbn. rewrite sumDeltas_app. cbn. lia. Qed.

Lemma init_consistent : consistent init.
Proof. reflexivity. Qed.

Create HintDb scorer.
#[local] Hint Resolve step_consistent init_consistent : scorer.

Ltac split_ifs :=
  repeat match goal with
         | |- context [if ?b then _ else _] => destruct b
         end.

Lemma sizeRule_consistent s a : consistent a -> consistent (sizeRule s a).
Proof. intros H. unfold sizeRule. split_ifs; auto with scorer. Qed.

Lemma ownershipRule_consistent o s a : consistent a -> consistent (ownershipRule o s a).
Proof. intros H. unfold ownershipRule. split_ifs; auto with scorer. Qed.

Lemma avoidLoop_consistent n subs brands a :
  consistent a -> consistent (avoidLoop n subs brands a).
Proof.
  intros H. induction brands as [|b brands IH]; cbn; [exact H|].
  split_ifs; auto with scorer.
Qed.

Lemma concernStep_consistent c a f :
  consistent a -> consistent (fst (concernStep c (a, f))).
Proof.
  intros H. unfold concernStep.
  repeat (match goal with
          | |- context [if ?b then _ else _] => destruct b
          end; cbn [fst snd]).
  all: auto 10 with scorer.
Qed.

Lemma concernLoop_consistent cs st :
  consistent (fst st) -> consistent (fst (concernLoop cs st)).
Proof.
  revert st. induction cs as [|c cs IH]; intros [a f] H; cbn; [exact H|].
  apply IH. apply concernStep_consistent. exact H.
Qed.

Lemma certRule_consistent cd up a : consistent a -> consistent (certRule cd up a).
Proof.
  intros H. unfold certRule.
  assert (Hf : forall cs a, consistent a ->
                 consistent (fold_left (fun a c => certStep c a) cs a)).
  { induction cs as [|c cs IH]; intros a' Ha; cbn; [exact Ha|].
    apply IH. unfold certStep. split_ifs; auto with scorer. }
  destruct (sustainableProducts up) as [[|]|]; auto.
Qed.

Lemma scorer_consistent cd up :
  let companySize := lower_or_empty (companySize cd) in
  let ownership := lower_or_empty (ownershipType cd) in
  consistent (certRule cd up (concernRule cd (avoidRule cd up
    (ownershipRule ownership companySize (sizeRule companySize init))))).
Proof.
  cbn zeta. apply certRule_consistent. unfold concernRule.
  apply concernLoop_consistent. cbn. unfold avoidRule. apply avoidLoop_consistent.
  apply ownershipRule_consistent, sizeRule_consistent, init_consistent.
Qed.

Lemma sumDeltas_le_bonuses l : sumDeltas l <= sumBonuses l.
Proof. induction l as [|e l IH]; cbn; lia. Qed.

Lemma sumBonuses_nonneg l : 0 <= sumBonuses l.
Proof. induction l as [|e l IH]; cbn; lia. Qed.

Lemma sumDeltas_penalty l e :
  In e l -> sumDeltas l <= sumBonuses l + Z.min 0 (change e).
Proof.
  induction l as [|e' l IH]; cbn; [tauto|].
  intros [-> | Hin].
  - pose proof (sumDeltas_le_bonuses l). lia.
  - specialize (IH Hin). lia.
Qed.

(** The rule of the avoid list fires for a brand when the lowercased
    parent name contains it or some lowercased subsidiary does. *)
Definition brandHit (companyName : string) (subs : option (list string)) (b : string) : bool :=
  includes companyName (toLowerCase b)
  || match subs with
     | Some l => existsb (fun sub => includes (toLowerCase sub) (toLowerCase b)) l
     | None => false
     end.

Lemma avoidLoop_find n subs brands a :
  avoidLoop n subs brands a =
  match find (brandHit n subs) brands with
  | None => a
  | Some b =>
      if includes n (toLowerCase b) then step a (-30) ("On your avoid list: " ++ b) (-30)
      else step a (-25) ("Parent company on avoid list: " ++ b) (-25)
  end.
Proof.
  induction brands as [|b brands IH]; cbn; [reflexivity|].
  unfold brandHit at 1.
  destruct (includes n (toLowerCase b)) eqn:E; cbn; [rewrite E; reflexivity|].
  destruct (match subs with Some l => _ | None => false end) eqn:F; cbn;
    [rewrite E; reflexivity | exact IH].
Qed.

(** The avoid-list test of [checkAvoidedBrands] for one brand: the
    substring test in both directions, against the parent name and the
    first word of it, then against each subsidiary. *)
Definition checkHit (companyName : string) (subs : list string) (b : string) : bool :=
  let bl := toLowerCase b in
  includes companyName bl || includes bl (firstWord companyName)
  || existsb (fun s => includes s bl || includes bl (firstWord s)) subs.

Lemma checkSubs_none bl b subs :
  checkSubs bl b subs = None <-> existsb (fun s => includes s bl || includes bl (firstWord s)) subs = false.
Proof.
  induction subs as [|s subs IH]; cbn; [tauto|].
  destruct (includes s bl || includes bl (firstWord s)); cbn; [split; discriminate|exact IH].
Qed.

Lemma checkLoop_fst n subs brands :
  fst (checkLoop n subs brands) = existsb (checkHit n subs) brands.
Proof.
  induction brands as [|b brands IH]; cbn; [reflexivity|].
  unfold checkHit at 1. cbn zeta.
  destruct (includes n (toLowerCase b) || includes (toLowerCase b) (firstWord n)); cbn; [reflexivity|].
  destruct (checkSubs (toLowerCase b) b subs) eqn:E.
  - cbn. assert (existsb (fun s => includes s (toLowerCase b) || includes (toLowerCase b) (firstWord s)) subs = true)
      as ->; [|reflexivity].
    destruct (existsb _ subs) eqn:F; [reflexivity|].
    apply (proj2 (checkSubs_none (toLowerCase b) b subs)) in F. congruence.
  - apply (proj1 (checkSubs_none (toLowerCase b) b subs)) in E. rewrite E. exact IH.
Qed.

Lemma brandHit_checkHit n subs b :
  brandHit n subs b = true -> checkHit n (map toLowerCase (or_nil subs)) b = true.
Proof.
  unfold brandHit, checkHit. intros H.
  apply orb_true_iff in H as [H|H]; [rewrite H; reflexivity|].
  destruct subs as [l|]; [|discriminate]. cbn.
  apply existsb_exists in H as (s & Hs & Hi).
  assert (existsb (fun x => includes x (toLowerCase b) || includes (toLowerCase b) (firstWord x))
            (map toLowerCase l) = true) as ->.
  { apply existsb_exists. exists (toLowerCase s). split; [apply in_map; exact Hs|].
    rewrite Hi. reflexivity. }
  rewrite !orb_true_r. reflexivity.
Qed.

Lemma concernStep_extends c a f :
  exists l, breakdown (fst (concernStep c (a, f))) = (breakdown a ++ l)%list.
Proof.
  unfold concernStep.
  repeat (match goal with
          | |- context [if ?b then _ else _] => destruct b
          end; cbn [fst snd breakdown step]).
  all: eexists; rewrite <- ?app_assoc; first [reflexivity | symmetry; apply app_nil_r].
Qed.

Lemma concernLoop_extends cs st :
  exists l, breakdown (fst (concernLoop cs st)) = (breakdown (fst st) ++ l)%list.
Proof.
  revert st. induction cs as [|c cs IH]; intros [a f]; cbn [concernLoop].
  - exists []. rewrite app_nil_r. reflexivity.
  - destruct (IH (concernStep c (a, f))) as [l Hl]. rewrite Hl.
    destruct (concernStep_extends c a f) as [l' Hl']. rewrite Hl'.
    exists (l' ++ l)%list. rewrite app_assoc. reflexivity.
Qed.

Lemma certRule_extends cd up a :
  exists l, breakdown (certRule cd up a) = (breakdown a ++ l)%list.
Proof.
  unfold certRule.
  assert (Hf : forall cs a, exists l,
            breakdown (fold_left (fun a c => certStep c a) cs a) = (breakdown a ++ l)%list).
  { induction cs as [|c cs IH]; intros a'; cbn.
    - exists []. rewrite app_nil_r. reflexivity.
    - destruct (IH (certStep c a')) as [l Hl]. rewrite Hl. unfold certStep.
      split_ifs; cbn; eexists; rewrite <- ?app_assoc; reflexivity. }
  destruct (sustainableProducts up) as [[|]|]; auto.
  exists []. rewrite app_nil_r. reflexivity.
Qed.

End ScorerFacts.

Section ScorerClaims.
Import Scorer ScorerFacts.

Lemma score_clamped_sum (cd : CompanyAnalysis) (up : UserPreferences) :
  finalScore (calculateAlignmentScore cd up)
    = Z.max 0 (Z.min 100 (100 + sumDeltas (resultBreakdown (calculateAlignmentScore cd up)))).
Proof.
  pose proof (scorer_consistent cd up) as H. cbn zeta in H. unfold consistent in H.
  unfold calculateAlignmentScore. cbn [finalScore resultBreakdown].
  rewrite <- H. reflexivity.
Qed.

(** C1: the score returned by [calculateAlignmentScore] is
    [clamp(100 + sum of the breakdown deltas, 0, 100)], hence in [0,100]. *)
Theorem alignment_score_is_clamped_sum (cd : CompanyAnalysis) (up : UserPreferences) :
  finalScore (calculateAlignmentScore cd up)
    = Z.max 0 (Z.min 100 (100 + sumDeltas (resultBreakdown (calculateAlignmentScore cd up))))
  /\ 0 <= finalScore (calculateAlignmentScore cd up) <= 100.
Proof. rewrite score_clamped_sum. lia. Qed.

(** C2 (counterexample): a subsidiary-only match for the first brand of
    the list wins over a parent-company match for a later brand: the
    parent name contains [acme], yet the only entry is the -25 one for
    [widget]. *)
Lemma avoid_rule_parent_priority_counterexample :
  includes (toLowerCase "Acme Holdings") (toLowerCase "acme") = true
  /\ resultBreakdown
       (calculateAlignmentScore
          (mkAnalysis (Some "Acme Holdings") None None (Some ["Widget Co"]) None None)
          (mkPrefs (Some ["widget"; "acme"]) None))
     = [mkEntry "Parent company on avoid list: widget" (-25)].
Proof. split; vm_compute; reflexivity. Qed.

(** C2 (amended): the avoid-list rule takes the first brand, in list
    order, that the lowercased parent name or some lowercased subsidiary
    contains; it adds exactly one entry for it, -30 citing it when the
    parent name contains it and -25 otherwise, and nothing when no brand
    matches. *)
Theorem avoid_rule_first_matching_brand (cd : CompanyAnalysis) (up : UserPreferences) (a : acc) :
  avoidRule cd up a =
  match find (brandHit (lower_or_empty (parentCompany cd)) (subsidiaries cd))
             (or_nil (avoidedBrands up)) with
  | None => a
  | Some b =>
      if includes (lower_or_empty (parentCompany cd)) (toLowerCase b)
      then step a (-30) ("On your avoid list: " ++ b) (-30)
      else step a (-25) ("Parent company on avoid list: " ++ b) (-25)
  end.
Proof. unfold avoidRule. apply avoidLoop_find. Qed.

(** C3 (code bug): an analysis with ownershipType [private-equity], the
    spelling the analysis prompt asks for, gets no ownership entry: the
    scorer looks for [private equity] with a space. *)
Theorem private_equity_ownership_unscored :
  calculateAlignmentScore
    (mkAnalysis (Some "Acme") None (Some "private-equity") None None None)
    (mkPrefs None None)
  = mkResult 100 [].
Proof. vm_compute. reflexivity. Qed.

(** C4 (counterexample): [checkAvoidedBrands] flags [Apple Inc] for the
    avoided brand [pineapple] (the brand contains the first word of the
    parent name), while the scorer's avoid-list rule adds nothing. *)
Lemma check_avoided_brands_counterexample :
  fst (checkAvoidedBrands (mkAnalysis (Some "Apple Inc") None None None None None)
                          (Some ["pineapple"])) = true
  /\ avoidRule (mkAnalysis (Some "Apple Inc") None None None None None)
               (mkPrefs (Some ["pineapple"]) None) init = init.
Proof. split; vm_compute; reflexivity. Qed.

(** C4 (amended): [checkAvoidedBrands] returns false with an empty reason
    for an absent or empty list; otherwise it reports true exactly when
    some brand, lowercased, is contained in the lowercased parent name or
    contains its first word, or is contained in some lowercased subsidiary
    or contains that subsidiary's first word.  Whenever the scorer's
    avoid-list rule fires, it reports true. *)
Theorem check_avoided_brands_spec (cd : CompanyAnalysis) :
  checkAvoidedBrands cd None = (false, "")
  /\ checkAvoidedBrands cd (Some []) = (false, "")
  /\ (forall brands,
        fst (checkAvoidedBrands cd (Some brands))
        = existsb (checkHit (lower_or_empty (parentCompany cd))
                            (map toLowerCase (or_nil (subsidiaries cd)))) brands)
  /\ (forall up a, breakdown (avoidRule cd up a) <> breakdown a ->
        fst (checkAvoidedBrands cd (avoidedBrands up)) = true).
Proof.
  assert (Hall : forall brands,
            fst (checkAvoidedBrands cd (Some brands))
            = existsb (checkHit (lower_or_empty (parentCompany cd))
                                (map toLowerCase (or_nil (subsidiaries cd)))) brands).
  { intros [|b bs]; [reflexivity|]. apply checkLoop_fst. }
  split; [reflexivity|]. split; [reflexivity|]. split; [exact Hall|].
  intros up a Hfire. unfold avoidRule in Hfire. rewrite avoidLoop_find in Hfire.
  destruct (find _ (or_nil (avoidedBrands up))) as [b|] eqn:Hf; [|congruence].
  apply find_some in Hf as [Hin Hb].
  destruct (avoidedBrands up) as [brands|]; [|contradiction].
  rewrite Hall. apply existsb_exists. exists b. split; [exact Hin|].
  apply brandHit_checkHit. exact Hb.
Qed.

(** C9 (counterexample): with a small-business, co-op Amazon the -30
    entry is there but the bonuses bring the score to 95. *)
Lemma amazon_score_counterexample :
  calculateAlignmentScore
    (mkAnalysis (Some "Amazon.com Inc") (Some "small-business") (Some "co-op") None None None)
    (mkPrefs (Some ["Amazon"]) None)
  = mkResult 95 [mkEntry "Small business (<$1B)" 10; mkEntry "Co-op or B-Corp structure" 15;
                 mkEntry "On your avoid list: Amazon" (-30)].
Proof. vm_compute. reflexivity. Qed.

(** C9 (amended): for parentCompany [Amazon.com Inc] and avoidedBrands
    [Amazon], the breakdown includes the -30 [On your avoid list: Amazon]
    entry and the score is at most 70 plus the sum of the bonus deltas;
    so at most 70 when no size, ownership or certification bonus applies. *)
Theorem amazon_avoid_penalty (cd : CompanyAnalysis) (up : UserPreferences)
    (Hp : parentCompany cd = Some "Amazon.com Inc")
    (Hb : avoidedBrands up = Some ["Amazon"]) :
  In (mkEntry "On your avoid list: Amazon" (-30)) (resultBreakdown (calculateAlignmentScore cd up))
  /\ finalScore (calculateAlignmentScore cd up)
       <= 70 + sumBonuses (resultBreakdown (calculateAlignmentScore cd up)).
Proof.
  assert (Hin : In (mkEntry "On your avoid list: Amazon" (-30))
                   (resultBreakdown (calculateAlignmentScore cd up))).
  { unfold calculateAlignmentScore. cbn [resultBreakdown].
    set (a0 := ownershipRule _ _ _).
    assert (Ha : avoidRule cd up a0 = step a0 (-30) "On your avoid list: Amazon" (-30)).
    { unfold avoidRule. rewrite Hp, Hb. reflexivity. }
    rewrite Ha. unfold concernRule.
    destruct (concernLoop_extends (or_nil (factualConcerns cd))
                (step a0 (-30) "On your avoid list: Amazon" (-30), mkFlags false false false false))
      as [l1 H1].
    destruct (certRule_extends cd up
                (fst (concernLoop (or_nil (factualConcerns cd))
                   (step a0 (-30) "On your avoid list: Amazon" (-30), mkFlags false false false false))))
      as [l2 H2].
    rewrite H2, H1. cbn [fst breakdown step].
    apply in_or_app. left. apply in_or_app. left. apply in_or_app. right. left. reflexivity. }
  split; [exact Hin|].
  pose proof (score_clamped_sum cd up) as Heq.
  pose proof (sumDeltas_penalty _ _ Hin) as Hpen. cbn [change] in Hpen.
  pose proof (sumBonuses_nonneg (resultBreakdown (calculateAlignmentScore cd up))).
  rewrite Heq. lia.
Qed.

(** A run of [amazon_avoid_penalty] on a concrete analysis with concerns
    and a certification: both hypotheses hold and the conclusion is
    obtained from the theorem. *)
Lemma amazon_avoid_penalty_witness :
  parentCompany (mkAnalysis (Some "Amazon.com Inc") (Some "mega-corp") (Some "publicly-traded")
                            None (Some ["wage theft"]) (Some ["Fair Trade"])) = Some "Amazon.com Inc"
  /\ avoidedBrands (mkPrefs (Some ["Amazon"]) None) = Some ["Amazon"]
  /\ In (mkEntry "On your avoid list: Amazon" (-30))
       (resultBreakdown (calculateAlignmentScore
          (mkAnalysis (Some "Amazon.com Inc") (Some "mega-corp") (Some "publicly-traded")
                      None (Some ["wage theft"]) (Some ["Fair Trade"]))
          (mkPrefs (Some ["Amazon"]) None)))
  /\ finalScore (calculateAlignmentScore
          (mkAnalysis (Some "Amazon.com Inc") (Some "mega-corp") (Some "publicly-traded")
                      None (Some ["wage theft"]) (Some ["Fair Trade"]))
          (mkPrefs (Some ["Amazon"]) None))
     <= 70 + sumBonuses (resultBreakdown (calculateAlignmentScore
          (mkAnalysis (Some "Amazon.com Inc") (Some "mega-corp") (Some "publicly-traded")
                      None (Some ["wage theft"]) (Some ["Fair Trade"]))
          (mkPrefs (Some ["Amazon"]) None))).
Proof.
  split; [reflexivity|]. split; [reflexivity|].
  apply (amazon_avoid_penalty
           (mkAnalysis (Some "Amazon.com Inc") (Some "mega-corp") (Some "publicly-traded")
                       None (Some ["wage theft"]) (Some ["Fair Trade"]))
           (mkPrefs (Some ["Amazon"]) None)); reflexivity.
Defined.

(** The last part of [check_avoided_brands_spec] on a parent company
    named Acme Holdings with the avoided brand acme: the scorer's rule
    fires, and [checkAvoidedBrands] reports true. *)
Lemma check_avoided_brands_spec_witness :
  breakdown (avoidRule (mkAnalysis (Some "Acme Holdings") None None None None None)
                       (mkPrefs (Some ["acme"]) None) init) <> breakdown init
  /\ fst (checkAvoidedBrands (mkAnalysis (Some "Acme Holdings") None None None None None)
                             (avoidedBrands (mkPrefs (Some ["acme"]) None))) = true.
Proof.
  assert (Hfire : breakdown (avoidRule (mkAnalysis (Some "Acme Holdings") None None None None None)
                                       (mkPrefs (Some ["acme"]) None) init) <> breakdown init)
    by (vm_compute; intros H; discriminate H).
  split; [exact Hfire|].
  apply (proj2 (proj2 (proj2 (check_avoided_brands_spec
           (mkAnalysis (Some "Acme Holdings") None None None None None))))
           (mkPrefs (Some ["acme"]) None) init Hfire).
Defined.

End ScorerClaims.

(** * Properties of the response parser *)

Module ParserFacts.
Import Json Parser.

Lemma get_set f k v k' :
  get_field (set_prop f k v) k' = if String.eqb k' k then Some v else get_field f k'.
Proof.
  induction f as [|[k0 v0] f IH]; cbn.
  - reflexivity.
  - destruct (String.eqb_spec k k0) as [->|Hne]; cbn.
    + destruct (String.eqb k' k0); reflexivity.
    + rewrite IH. destruct (String.eqb_spec k' k0) as [->|Hne']; cbn.
      * destruct (String.eqb_spec k0 k); [congruence|reflexivity].
      * reflexivity.
Qed.

Lemma default_get f k d k' :
  get_field (default_prop f k d) k' =
  if String.eqb k' k then (if truthy (get_field f k) then get_field f k else Some d)
  else get_field f k'.
Proof.
  unfold default_prop. destruct (truthy (get_field f k)) eqn:T.
  - destruct (String.eqb_spec k' k) as [->|]; reflexivity.
  - apply get_set.
Qed.

Lemma validate_get_other cy f k :
  k <> "factualConcerns" -> k <> "impactExplanation" ->
  get_field (validateAndCleanData cy f) k = get_field f k.
Proof.
  intros H1 H2. unfold validateAndCleanData.
  assert (Hfc : get_field (match get_field f "factualConcerns" with
                           | Some (JArr l) as v => if truthy v then set_prop f "factualConcerns"
                                 (JArr (List.filter (keepConcern cy) l)) else f
                           | _ => f end) k = get_field f k).
  { destruct (get_field f "factualConcerns") as [[]|]; try reflexivity.
    cbn. rewrite get_set. destruct (String.eqb_spec k "factualConcerns"); [contradiction|reflexivity]. }
  destruct (get_field (match get_field f "factualConcerns" with _ => _ end) "impactExplanation")
    as [[]|]; try exact Hfc.
  match goal with |- context [if ?b then _ else _] => destruct b end; [|exact Hfc].
  rewrite get_set. destruct (String.eqb_spec k "impactExplanation"); [contradiction|exact Hfc].
Qed.

Lemma validate_get_fc cy f :
  get_field f "factualConcerns" = Some (JArr []) ->
  get_field (validateAndCleanData cy f) "factualConcerns" = Some (JArr []).
Proof.
  intros H. unfold validateAndCleanData. rewrite H. cbn.
  destruct (get_field (set_prop f "factualConcerns" (JArr [])) "impactExplanation") as [[]|];
    try (rewrite get_set; reflexivity).
  match goal with |- context [if ?b then _ else _] => destruct b end;
    rewrite !get_set; reflexivity.
Qed.

(** The parse after the [parentCompany] check: six array defaults and
    two string defaults. *)
Definition withDefaults (fields : list (string * json)) : list (string * json) :=
  let fields := fold_left (fun f k => default_prop f k (JArr [])) arrayFields fields in
  let fields := default_prop fields "companySize" (JStr "unknown") in
  default_prop fields "ownershipType" (JStr "unknown").

Lemma fold_defaults_get keys d f k :
  truthy (Some d) = true ->
  get_field (fold_left (fun f k => default_prop f k d) keys f) k =
  if existsb (String.eqb k) keys then
    (if truthy (get_field f k) then get_field f k else Some d)
  else get_field f k.
Proof.
  intros Td. revert f. induction keys as [|k0 ks IH]; intros f; cbn [fold_left existsb]; [reflexivity|].
  rewrite IH, default_get.
  destruct (String.eqb_spec k k0) as [->|Hne]; cbn [orb].
  - destruct (truthy (get_field f k0)) eqn:T; rewrite ?T, ?Td;
      destruct (existsb _ ks); reflexivity.
  - reflexivity.
Qed.

Lemma withDefaults_get fields k :
  get_field (withDefaults fields) k =
  if existsb (String.eqb k) arrayFields then
    (if truthy (get_field fields k) then get_field fields k else Some (JArr []))
  else if existsb (String.eqb k) ["companySize"; "ownershipType"] then
    (if truthy (get_field fields k) then get_field fields k else Some (JStr "unknown"))
  else get_field fields k.
Proof.
  unfold withDefaults. rewrite !default_get.
  rewrite !(fold_defaults_get arrayFields (JArr [])) by reflexivity.
  destruct (String.eqb_spec k "ownershipType") as [->|H1]; [reflexivity|].
  destruct (String.eqb_spec k "companySize") as [->|H2]; [reflexivity|].
  cbn [existsb]. rewrite orb_false_r.
  destruct (String.eqb_spec k "companySize"); [contradiction|].
  destruct (String.eqb_spec k "ownershipType"); [contradiction|].
  reflexivity.
Qed.

Lemma parse_ok_shape dec cy text fields :
  dec (unwrap text) = Some (JObj fields) ->
  truthy (get_field fields "parentCompany") = true ->
  parseClaudeResponse dec cy text = ParseOk (JObj (validateAndCleanData cy (withDefaults fields))).
Proof. intros H T. unfold parseClaudeResponse. rewrite H, T. reflexivity. Qed.

(** ** The year screen *)

Lemma ascii_eqb_nat a b : Ascii.eqb a b = Nat.eqb (nat_of_ascii a) (nat_of_ascii b).
Proof.
  destruct (Ascii.eqb_spec a b) as [->|Hne]; [symmetry; apply Nat.eqb_refl|].
  symmetry. apply Nat.eqb_neq. intros E. apply Hne.
  rewrite <- (ascii_nat_embedding a), <- (ascii_nat_embedding b), E. reflexivity.
Qed.

Lemma prefix_iff_range a b c d y :
  four_digits a b c d = Some y ->
  ((Ascii.eqb a "1"%char && Ascii.eqb b "9"%char) || (Ascii.eqb a "2"%char && Ascii.eqb b "0"%char))
  = (1900 <=? y) && (y <=? 2099).
Proof.
  unfold four_digits, digit_val. rewrite !ascii_eqb_nat.
  replace (nat_of_ascii "1"%char) with 49%nat by reflexivity.
  replace (nat_of_ascii "9"%char) with 57%nat by reflexivity.
  replace (nat_of_ascii "2"%char) with 50%nat by reflexivity.
  replace (nat_of_ascii "0"%char) with 48%nat by reflexivity.
  destruct (andb (Nat.leb 48 (nat_of_ascii a)) _) eqn:Ha; [|discriminate].
  destruct (andb (Nat.leb 48 (nat_of_ascii b)) _) eqn:Hb; [|discriminate].
  destruct (andb (Nat.leb 48 (nat_of_ascii c)) _) eqn:Hc; [|discriminate].
  destruct (andb (Nat.leb 48 (nat_of_ascii d)) _) eqn:Hd; [|discriminate].
  apply andb_true_iff in Ha, Hb, Hc, Hd.
  destruct Ha as [Ha1 Ha2], Hb as [Hb1 Hb2], Hc as [Hc1 Hc2], Hd as [Hd1 Hd2].
  apply Nat.leb_le in Ha1, Ha2, Hb1, Hb2, Hc1, Hc2, Hd1, Hd2.
  intros E. injection E as <-.
  destruct (Nat.eqb_spec (nat_of_ascii a) 49); destruct (Nat.eqb_spec (nat_of_ascii b) 57);
  destruct (Nat.eqb_spec (nat_of_ascii a) 50); destruct (Nat.eqb_spec (nat_of_ascii b) 48);
  cbn [andb orb]; symmetry;
  match goal with
  | |- ((?x <=? ?y) && (?y <=? ?z)) = _ => destruct (Z.leb_spec x y); destruct (Z.leb_spec y z)
  end; cbn [andb]; first [reflexivity | exfalso; lia].
Qed.

Definition inRange (y : Z) : bool := (1900 <=? y) && (y <=? 2099).

(** The regex match is the first word-bounded 4-digit token in
    [1900, 2099]. *)
Lemma yearMatch_tokens prev s :
  yearMatch prev s = hd_error (List.filter inRange (yearTokens prev s)).
Proof.
  revert prev. induction s as [|a s' IH]; intros prev; [reflexivity|].
  cbn [yearMatch yearTokens].
  destruct s' as [|b [|c [|d rest]]]; cbn [app]; try (apply IH).
  destruct (prev_non_word prev && next_non_word rest) eqn:B.
  - destruct (four_digits a b c d) as [y|] eqn:F.
    + pose proof (prefix_iff_range _ _ _ _ _ F) as P.
      cbn [andb]. rewrite P. cbn [List.filter app].
      change (inRange y) with ((1900 <=? y) && (y <=? 2099)).
      destruct ((1900 <=? y) && (y <=? 2099)); [reflexivity|].
      apply IH.
    + cbn [andb app].
      destruct (_ || _); [|apply IH]. apply IH.
  - cbn [andb app]. apply IH.
Qed.

End ParserFacts.

Section ParserClaims.
Import Json Parser ParserFacts.

Definition nl : string := String (ascii_of_nat 10) EmptyString.
Definition qt : string := String dquote EmptyString.

(** The text [```json], newline, [{"parentCompany":"Acme"}], newline, [```]. *)
Definition fencedAcme : string :=
  "```json" ++ nl ++ "{" ++ qt ++ "parentCompany" ++ qt ++ ":" ++ qt ++ "Acme" ++ qt ++ "}" ++ nl ++ "```".

Definition acmeAnalysis : json :=
  JObj [("parentCompany", JStr "Acme"); ("factualConcerns", JArr []);
        ("certifications", JArr []); ("subsidiaries", JArr []);
        ("suggestedStoreTypes", JArr []); ("suggestedStoreNames", JArr []);
        ("googlePlacesTypes", JArr []); ("companySize", JStr "unknown");
        ("ownershipType", JStr "unknown")].

(** C5: the fenced [Acme] reply parses to [Acme] with every array empty
    and the two string fields [unknown]; in general a reply that decodes,
    after unwrapping, to a record with a non-empty string parentCompany
    succeeds with that parentCompany, absent arrays defaulted to empty and
    absent companySize/ownershipType to [unknown]; and a reply that does not
    decode, or whose parentCompany is absent or empty, is a ParseError. *)
Theorem parse_claude_response_spec :
  (forall cy, parseClaudeResponse JSON_parse cy fencedAcme = ParseOk acmeAnalysis)
  /\ (forall (dec : string -> option json) cy text fields p,
        dec (unwrap text) = Some (JObj fields) ->
        get_field fields "parentCompany" = Some (JStr p) -> p <> "" ->
        exists out, parseClaudeResponse dec cy text = ParseOk (JObj out)
          /\ get_field out "parentCompany" = Some (JStr p)
          /\ (forall k, In k arrayFields -> get_field fields k = None ->
                get_field out k = Some (JArr []))
          /\ (forall k, In k ["companySize"; "ownershipType"] -> get_field fields k = None ->
                get_field out k = Some (JStr "unknown")))
  /\ (forall (dec : string -> option json) cy text,
        (dec (unwrap text) = None
         \/ exists j, dec (unwrap text) = Some j
                      /\ (prop j "parentCompany" = None \/ prop j "parentCompany" = Some (JStr ""))) ->
        parseClaudeResponse dec cy text = ParseError).
Proof.
  split; [|split].
  - intros cy. vm_compute. reflexivity.
  - intros dec cy text fields p Hdec Hp Hne.
    assert (T : truthy (get_field fields "parentCompany") = true).
    { rewrite Hp. cbn. destruct (String.eqb_spec p ""); [contradiction|reflexivity]. }
    exists (validateAndCleanData cy (withDefaults fields)).
    split; [apply parse_ok_shape; assumption|].
    split; [|split].
    + rewrite validate_get_other by discriminate. rewrite withDefaults_get. cbn. exact Hp.
    + intros k Hk Habs. destruct Hk as [<-|[<-|[<-|[<-|[<-|[<-|[]]]]]]];
        [apply validate_get_fc|..];
        try (rewrite validate_get_other by discriminate);
        rewrite withDefaults_get, Habs; reflexivity.
    + intros k Hk Habs. destruct Hk as [<-|[<-|[]]];
        rewrite validate_get_other by discriminate;
        rewrite withDefaults_get, Habs; reflexivity.
  - intros dec cy text [Hn | (j & Hj & Hp)]; unfold parseClaudeResponse.
    + rewrite Hn. reflexivity.
    + rewrite Hj. destruct j; try reflexivity.
      cbn in Hp. destruct Hp as [Hp|Hp]; rewrite Hp; reflexivity.
Qed.

(** A run of [parse_claude_response_spec] on the fenced [Acme] reply. *)
Lemma parse_claude_response_spec_witness :
  JSON_parse (unwrap fencedAcme) = Some (JObj [("parentCompany", JStr "Acme")])
  /\ exists out, parseClaudeResponse JSON_parse 2026 fencedAcme = ParseOk (JObj out)
       /\ get_field out "parentCompany" = Some (JStr "Acme").
Proof.
  split; [vm_compute; reflexivity|].
  destruct (proj1 (proj2 parse_claude_response_spec) JSON_parse 2026 fencedAcme
              [("parentCompany", JStr "Acme")] "Acme") as (out & Hout & Hp & _);
    [vm_compute; reflexivity | reflexivity | discriminate |].
  exists out. split; assumption.
Defined.

(** C6 (counterexample): [1750 wage dispute] has the single year token
    1750, outside [1800, 2026], and is kept; [2010 example wage dispute]
    has the year token 2010, inside the range, and is discarded. *)
Lemma concern_year_screen_counterexample :
  yearTokens None "1750 wage dispute" = [1750]
  /\ keepConcern 2026 (JStr "1750 wage dispute") = true
  /\ yearTokens None "2010 example wage dispute" = [2010]
  /\ keepConcern 2026 (JStr "2010 example wage dispute") = false.
Proof. repeat split; vm_compute; reflexivity. Qed.

(** C6 (amended): for a current year [cy >= 1899] and a string entry
    with exactly one word-bounded 4-digit year token [y]: an entry
    containing [example] or [placeholder] is discarded; otherwise it is
    kept when [1800 <= y <= cy] and discarded when [cy < y <= 2099].  So
    [1850 wage dispute] is kept and [2099 wage dispute] is discarded in
    2026. *)
Theorem concern_year_screen (cy : Z) (s : string) (y : Z)
    (Hcy : 1899 <= cy) (Htok : yearTokens None s = [y]) :
  ((includes s "example" || includes s "placeholder") = true -> keepConcern cy (JStr s) = false)
  /\ ((includes s "example" || includes s "placeholder") = false ->
        1800 <= y <= cy -> keepConcern cy (JStr s) = true)
  /\ ((includes s "example" || includes s "placeholder") = false ->
        cy < y <= 2099 -> keepConcern cy (JStr s) = false)
  /\ keepConcern 2026 (JStr "1850 wage dispute") = true
  /\ keepConcern 2026 (JStr "2099 wage dispute") = false.
Proof.
  assert (Hm : yearMatch None s = if inRange y then Some y else None).
  { rewrite yearMatch_tokens, Htok. cbn. destruct (inRange y); reflexivity. }
  unfold keepConcern. rewrite Hm. unfold inRange.
  split; [|split; [|split]].
  - intros Hx. rewrite Hx. apply andb_false_r.
  - intros Hx Hy. rewrite Hx. cbn [negb]. rewrite andb_true_r.
    destruct (Z.leb_spec 1900 y); destruct (Z.leb_spec y 2099); cbn [andb]; try reflexivity;
    destruct (Z.ltb_spec y 1800); destruct (Z.ltb_spec cy y); cbn; try reflexivity; lia.
  - intros Hx Hy. rewrite Hx. cbn [negb]. rewrite andb_true_r.
    destruct (Z.leb_spec 1900 y); destruct (Z.leb_spec y 2099); cbn [andb]; try lia;
    destruct (Z.ltb_spec y 1800); destruct (Z.ltb_spec cy y); cbn; try reflexivity; lia.
  - split; vm_compute; reflexivity.
Qed.

(** A run of [concern_year_screen] on [1850 wage dispute] in 2026. *)
Lemma concern_year_screen_witness :
  1899 <= 2026 /\ yearTokens None "1850 wage dispute" = [1850]
  /\ keepConcern 2026 (JStr "1850 wage dispute") = true.
Proof.
  split; [lia|]. split; [vm_compute; reflexivity|].
  apply (proj1 (proj2 (concern_year_screen 2026 "1850 wage dispute" 1850 ltac:(lia)
                         ltac:(vm_compute; reflexivity)))); [vm_compute; reflexivity | lia].
Defined.

End ParserClaims.

(** * Properties of the aggregator *)

Module AggregatorFacts.
Import Aggregator.
Local Open Scope list_scope.

Lemma existsb_id_in p l :
  existsb (fun q => bool_decide (placeId q = placeId p)) l = true <-> In (placeId p) (map placeId l).
Proof.
  rewrite existsb_exists, in_map_iff. split.
  - intros (q & Hq & Hb). exists q. split; [|exact Hq]. apply bool_decide_eq_true in Hb. exact Hb.
  - intros (q & Hq & Hin). exists q. split; [exact Hin|]. apply bool_decide_eq_true. exact Hq.
Qed.

Lemma firstOccurrences_snoc e l p :
  firstOccurrences e (l ++ [p]) =
  firstOccurrences e l
  ++ (if existsb (fun q => bool_decide (placeId q = placeId p)) (e ++ l) then [] else [p]).
Proof.
  revert e. induction l as [|x l IH]; intros e; cbn [app firstOccurrences].
  - rewrite !app_nil_r. reflexivity.
  - rewrite IH, <- app_assoc. cbn [app]. rewrite <- app_assoc. reflexivity.
Qed.

Lemma firstOccurrences_nodup e l :
  NoDup (map placeId (firstOccurrences e l))
  /\ forall x, In x (map placeId (firstOccurrences e l)) -> ~ In x (map placeId e).
Proof.
  revert e. induction l as [|p l IH]; intros e; cbn [firstOccurrences].
  - split; [constructor | intros x []].
  - destruct (IH (e ++ [p])) as [Hnd Hdis].
    destruct (existsb _ e) eqn:E; cbn [app map].
    + split; [exact Hnd|]. intros x Hx Hin. apply (Hdis x Hx).
      rewrite map_app. apply in_or_app. left. exact Hin.
    + apply not_true_iff_false in E. rewrite existsb_id_in in E.
      split.
      * constructor; [|exact Hnd]. intros Hin. apply list_elem_of_In in Hin. apply (Hdis _ Hin).
        rewrite map_app. apply in_or_app. right. left. reflexivity.
      * intros x [<-|Hx]; [exact E|]. intros Hin. apply (Hdis x Hx).
        rewrite map_app. apply in_or_app. left. exact Hin.
Qed.

(** The invariant of a run: the merged list is the first occurrences of
    the places fed so far, and the seen set holds exactly their ids. *)
Definition aggInv (st : aggState) : Prop :=
  allPlaces st = firstOccurrences [] (fed st)
  /\ forall x, x ∈ seenPlaceIds st <-> In x (map placeId (fed st)).

Lemma emptyAgg_inv : aggInv emptyAgg.
Proof. split; [reflexivity|]. intros x. cbn. set_solver. Qed.

Lemma addUniquePlace_inv st p : aggInv st -> aggInv (addUniquePlace st p).
Proof.
  intros [H1 H2]. unfold addUniquePlace.
  destruct (decide (placeId p ∈ seenPlaceIds st)) as [Hin|Hnin]; split; cbn [allPlaces fed seenPlaceIds].
  - rewrite firstOccurrences_snoc, H1. cbn [app].
    assert (existsb (fun q => bool_decide (placeId q = placeId p)) (fed st) = true) as ->.
    { apply existsb_id_in, H2, Hin. }
    rewrite app_nil_r. reflexivity.
  - intros x. rewrite H2, map_app, in_app_iff. cbn. split; [tauto|].
    intros [Hx|[<-|[]]]; [exact Hx|]. apply H2, Hin.
  - rewrite firstOccurrences_snoc, H1. cbn [app].
    assert (existsb (fun q => bool_decide (placeId q = placeId p)) (fed st) = false) as ->.
    { apply not_true_iff_false. rewrite existsb_id_in. rewrite <- H2. exact Hnin. }
    reflexivity.
  - intros x. rewrite elem_of_union, elem_of_singleton, H2, map_app, in_app_iff. cbn.
    split; [intros [->|Hx]; tauto|intros [Hx|[<-|[]]]; tauto].
Qed.

Lemma addUniquePlaces_inv st ps : aggInv st -> aggInv (addUniquePlaces st ps).
Proof.
  unfold addUniquePlaces. revert st. induction ps as [|p ps IH]; intros st H; cbn; [exact H|].
  apply IH, addUniquePlace_inv, H.
Qed.

Lemma fold_addUniquePlaces_inv {A} (f : A -> list place) (xs : list A) st :
  aggInv st -> aggInv (fold_left (fun st x => addUniquePlaces st (f x)) xs st).
Proof.
  revert st. induction xs as [|x xs IH]; intros st H; cbn; [exact H|].
  apply IH, addUniquePlaces_inv, H.
Qed.

Lemma mergeStrategies_inv sT sN cat an : aggInv (mergeStrategies sT sN cat an).
Proof.
  unfold mergeStrategies.
  pose proof (fold_addUniquePlaces_inv (fun t => sT t (match googlePlacesTypes an with
                                                      | Some l => l | None => ["store"] end))
                (firstn 2 (or_nil (suggestedStoreTypes an))) emptyAgg emptyAgg_inv) as H1.
  pose proof (fold_addUniquePlaces_inv sN (firstn 2 (or_nil (suggestedStoreNames an))) _ H1) as H2.
  match goal with |- context [if ?b then _ else _] => destruct b end; [|exact H2].
  apply addUniquePlaces_inv, H2.
Qed.

End AggregatorFacts.

Section AggregatorClaims.
Import Aggregator AggregatorFacts.
Local Open Scope list_scope.

(** Places and searches for the duplicate example: strategy 1 (store
    type outdoor) and strategy 2 (store name REI) both return the place
    with id A, under different display names. *)
Definition placeA : place := mkPlace (Some "A") (Some (mkText (Some "REI Co-op"))) (Some ["sporting_goods_store"]) None.
Definition placeA' : place := mkPlace (Some "A") (Some (mkText (Some "REI"))) (Some ["store"]) None.
Definition placeB : place := mkPlace (Some "B") (Some (mkText (Some "Trail Outfitters"))) (Some ["store"]) None.

Definition searchTypeEx (term : string) (_ : list string) : list place :=
  if String.eqb term "outdoor" then [placeA; placeB] else [].

Definition searchNameEx (name : string) : list place :=
  if String.eqb name "REI" then [placeA'] else [].

Definition inputEx : analysisInput := mkInput (Some ["outdoor"]) (Some ["REI"]) None.

(** Claim C7: within one run of the merge of [findLocalAlternatives], for
    any searches, category and analysis, the ids of the merged list are
    pairwise distinct and the merged list is exactly the first occurrence
    of each id in the order the strategies fed the places; and when
    strategy 1 and strategy 2 both return the place with id A, the merged
    list holds it once, as first found by strategy 1. *)
Theorem merge_unique_first_occurrences :
  (forall sT sN cat an,
     NoDup (map placeId (allPlaces (mergeStrategies sT sN cat an)))
     /\ allPlaces (mergeStrategies sT sN cat an)
        = firstOccurrences [] (fed (mergeStrategies sT sN cat an)))
  /\ fed (mergeStrategies searchTypeEx searchNameEx "bottles" inputEx) = [placeA; placeB; placeA']
  /\ allPlaces (mergeStrategies searchTypeEx searchNameEx "bottles" inputEx) = [placeA; placeB].
Proof.
  split; [|split; reflexivity].
  intros sT sN cat an.
  destruct (mergeStrategies_inv sT sN cat an) as [H1 _].
  split; [|exact H1].
  rewrite H1. apply firstOccurrences_nodup.
Qed.

End AggregatorClaims.

(** * Properties of the ranker *)

Module RankerFacts.
Import Ranker.
Local Open Scope list_scope.

Lemma insertDesc_in x y l : In y (insertDesc x l) <-> x = y \/ In y l.
Proof.
  induction l as [|z l IH]; cbn; [tauto|].
  destruct (relevanceScore x <=? relevanceScore z); cbn; rewrite ?IH; tauto.
Qed.

Lemma sortDesc_fold_in y l acc :
  In y (fold_left (fun acc x => insertDesc x acc) l acc) <-> In y acc \/ In y l.
Proof.
  revert acc. induction l as [|x l IH]; intros acc; cbn; [tauto|].
  rewrite IH, insertDesc_in. tauto.
Qed.

Lemma sortDesc_in y l : In y (sortDesc l) <-> In y l.
Proof. unfold sortDesc. rewrite sortDesc_fold_in. cbn. tauto. Qed.

Lemma keepPlace_not_big_box f site p :
  keepPlace f site p = true ->
  existsb (fun retailer => includes (toLowerCase (nameText p)) retailer) bigBoxRetailers = false.
Proof.
  unfold keepPlace. intros H.
  destruct (existsb (fun retailer => includes (toLowerCase (nameText p)) retailer) bigBoxRetailers);
    [|reflexivity].
  destruct (match businessStatus p with Some _ => _ | None => false end); [discriminate|].
  destruct (negb _ && _); discriminate.
Qed.

Lemma filterAndScorePlaces_in r places cat site :
  In r (filterAndScorePlaces places cat site) ->
  In (candidate r) places
  /\ keepPlace (categorySpecificFilters (toLowerCase cat))
       (match site with Some s => toLowerCase s | None => "" end) (candidate r) = true.
Proof.
  unfold filterAndScorePlaces. rewrite sortDesc_in, in_map_iff.
  intros (p & <- & Hp). apply filter_In in Hp. exact Hp.
Qed.

End RankerFacts.

Section RankerClaims.
Import Ranker RankerFacts.

(** Claim C8: for any places, product category and current site, no
    candidate of the output of [filterAndScorePlaces] has a lower-cased
    name containing an entry of [bigBoxRetailers], whatever its types and
    score; in particular no output candidate is named Walmart Supercenter. *)
Theorem ranker_drops_big_box places cat site :
  forall r, In r (filterAndScorePlaces places cat site) ->
  (forall retailer, In retailer bigBoxRetailers ->
     includes (toLowerCase (nameText (candidate r))) retailer = false)
  /\ nameText (candidate r) <> "Walmart Supercenter".
Proof.
  intros r Hr.
  apply filterAndScorePlaces_in in Hr as [_ Hk].
  apply keepPlace_not_big_box in Hk.
  assert (Hall : forall retailer, In retailer bigBoxRetailers ->
            includes (toLowerCase (nameText (candidate r))) retailer = false).
  { intros retailer Hin. destruct (includes _ retailer) eqn:E; [|reflexivity].
    rewrite <- Hk. symmetry. apply existsb_exists. exists retailer. split; assumption. }
  split; [exact Hall|].
  intros Hn. specialize (Hall "walmart" ltac:(cbn; tauto)). rewrite Hn in Hall. discriminate.
Qed.

Definition rankerPlaces : list place :=
  [mkPlace (Some "w") (Some (mkText (Some "Walmart Supercenter"))) (Some ["supermarket"; "store"]) None;
   mkPlace (Some "g") (Some (mkText (Some "Green Grocer"))) (Some ["grocery_store"; "store"]) None].

(** The theorem applied to the one candidate that the ranker keeps from
    a list holding a Walmart Supercenter and a local grocer. *)
Lemma ranker_drops_big_box_witness :
  filterAndScorePlaces rankerPlaces "snack" None
    = [mkScored (nth 1 rankerPlaces (mkPlace None None None None)) 11]
  /\ nameText (nth 1 rankerPlaces (mkPlace None None None None)) <> "Walmart Supercenter".
Proof.
  split; [vm_compute; reflexivity|].
  apply (ranker_drops_big_box rankerPlaces "snack" None
           (mkScored (nth 1 rankerPlaces (mkPlace None None None None)) 11)).
  vm_compute. left. reflexivity.
Defined.

End RankerClaims.

(** * Properties of the price scraper *)

Module PriceScraperFacts.
Import PriceScraper.

Lemma method2_in_bounds hits v : method2 hits = Some v -> inBounds v = true.
Proof.
  induction hits as [|h hits IH]; cbn; [discriminate|].
  destruct h as [|[g|]]; [exact IH| |discriminate].
  match goal with |- (if inBounds ?p then _ else _) = _ -> _ =>
    destruct (inBounds p) eqn:E end; [|exact IH].
  intros H. injection H as <-. exact E.
Qed.

Lemma inBounds_fin v : inBounds v = true -> exists q, v = Fin q /\ (5 <= q <= 1000)%Q.
Proof.
  destruct v as [| |q]; cbn; try discriminate.
  intros H. apply andb_prop in H as [H1 H2]. apply Qle_bool_iff in H1, H2.
  exists q. split; [reflexivity|split; assumption].
Qed.

End PriceScraperFacts.

Section PriceScraperClaims.
Import Json PriceScraper PriceScraperFacts.

Definition q (s : string) : string := String dquote (s ++ String dquote "").

(** A page whose JSON-LD Product block carries the offer price 5000. *)
Definition ldPage5000 : string :=
  "<html>" ++ ldOpen
  ++ "{" ++ q "@type" ++ ":" ++ q "Product" ++ "," ++ q "offers" ++ ":{" ++ q "price" ++ ":" ++ q "5000" ++ "}}"
  ++ ldClose ++ "</html>".

(** A page with no JSON-LD block and a JSON price field 27.99. *)
Definition jsonPricePage : string :=
  "<div data-x=1>" ++ q "price" ++ ": " ++ q "27.99" ++ "</div>".

(** Claim C10 (counterexample): on a page whose JSON-LD Product block has
    the offer price 5000, [scrapePriceFromPage] returns 5000, a value
    outside [5, 1000]. *)
Lemma price_json_ld_unbounded_counterexample :
  scrapePriceFromPage (Some (true, ldPage5000)) = Some (Fin 5000)
  /\ inBounds (Fin 5000) = false.
Proof. split; vm_compute; reflexivity. Qed.

(** Claim C10 (amended): whenever [scrapePriceFromPage] returns a price,
    either the fetch succeeded and the price is the offer price of the
    first JSON-LD Product block that has one (used as is, with no bound),
    or no JSON-LD block yields a price and the returned value is a finite
    number within [5, 1000]. *)
Theorem scrape_price_bounds response v :
  scrapePriceFromPage response = Some v ->
  (exists html, response = Some (true, html)
                /\ method1 (ldBodies (String.length html) html) = Some v)
  \/ ((forall ok html, response = Some (ok, html) ->
         ok = true /\ method1 (ldBodies (String.length html) html) = None)
      /\ exists r, v = Fin r /\ (5 <= r <= 1000)%Q).
Proof.
  destruct response as [[ok html]|]; unfold scrapePriceFromPage; [|discriminate].
  destruct ok; cbn [negb]; [|discriminate].
  destruct (method1 (ldBodies (String.length html) html)) as [w|] eqn:E.
  - intros H. injection H as <-. left. exists html. split; [reflexivity|exact E].
  - intros H. right. split.
    + intros ok' html' Heq. injection Heq as <- <-. split; [reflexivity|exact E].
    + apply inBounds_fin, (method2_in_bounds _ _ H).
Qed.

(** The theorem applied to a page with no JSON-LD block whose JSON price
    field reads 27.99: the price returned is 27.99, within the bound. *)
Lemma scrape_price_bounds_witness :
  scrapePriceFromPage (Some (true, jsonPricePage)) = Some (Fin 27.99)
  /\ exists r, Fin 27.99 = Fin r /\ (5 <= r <= 1000)%Q.
Proof.
  assert (H : scrapePriceFromPage (Some (true, jsonPricePage)) = Some (Fin 27.99))
    by (vm_compute; reflexivity).
  split; [exact H|].
  destruct (scrape_price_bounds _ _ H) as [(html & Heq & Hm)|[_ Hb]]; [|exact Hb].
  injection Heq as <-. vm_compute in Hm. discriminate.
Defined.

End PriceScraperClaims.

(** * Further properties of the scorer *)

Module ScorerMore.
Import Scorer ScorerFacts.
Local Open Scope list_scope.

(** The four concern categories of the Documented Issues loop. *)
Definition isLabor (concern : string) : bool :=
  let c := toLowerCase concern in includes c "labor" || includes c "worker" || includes c "wage".
Definition isEnv (concern : string) : bool :=
  let c := toLowerCase concern in
  includes c "environment" || includes c "pollution" || includes c "climate".
Definition isAnti (concern : string) : bool :=
  let c := toLowerCase concern in
  includes c "monopoly" || includes c "anti-competitive" || includes c "antitrust".
Definition isPolitical (concern : string) : bool :=
  let c := toLowerCase concern in
  includes c "political" || includes c "lobbying" || includes c "controversy".

(** The bonus of one certification in the Certifications loop. *)
Definition certBonus (cert : string) : Z :=
  let c := toLowerCase cert in
  if includes c "b-corp" || includes c "b corp" then 15
  else if includes c "fair trade" then 10
  else if includes c "carbon neutral" || includes c "carbon-neutral" then 5
  else if includes c "living wage" then 10
  else 0.

Fixpoint sumBonus (certs : list string) : Z :=
  match certs with [] => 0 | c :: r => certBonus c + sumBonus r end.

(** The same analysis with another list of factual concerns or
    certifications. *)
Definition withConcerns (cd : CompanyAnalysis) (l : list string) : CompanyAnalysis :=
  mkAnalysis (parentCompany cd) (companySize cd) (ownershipType cd) (subsidiaries cd)
    (Some l) (certifications cd).
Definition withCertifications (cd : CompanyAnalysis) (l : list string) : CompanyAnalysis :=
  mkAnalysis (parentCompany cd) (companySize cd) (ownershipType cd) (subsidiaries cd)
    (factualConcerns cd) (Some l).

Definition zeroAcc : acc := mkAcc 0 [].

Lemma concernStep_score c a f :
  score (fst (concernStep c (a, f)))
    = score a - (10 * Z.b2z (negb (laborIssues f) && isLabor c)
                 + 10 * Z.b2z (negb (envIssues f) && isEnv c)
                 + 5 * Z.b2z (negb (antiCompetitive f) && isAnti c)
                 + 5 * Z.b2z (negb (political f) && isPolitical c))
  /\ snd (concernStep c (a, f))
     = mkFlags (laborIssues f || isLabor c) (envIssues f || isEnv c)
               (antiCompetitive f || isAnti c) (political f || isPolitical c).
Proof.
  unfold concernStep, isLabor, isEnv, isAnti, isPolitical.
  destruct f as [l e an p].
  cbn [laborIssues envIssues antiCompetitive political].
  set (c0 := toLowerCase c).
  destruct (includes c0 "labor" || includes c0 "worker" || includes c0 "wage");
  destruct (includes c0 "environment" || includes c0 "pollution" || includes c0 "climate");
  destruct (includes c0 "monopoly" || includes c0 "anti-competitive" || includes c0 "antitrust");
  destruct (includes c0 "political" || includes c0 "lobbying" || includes c0 "controversy");
  destruct l, e, an, p; cbn; split; try reflexivity; lia.
Qed.

Lemma b2z_merge f m e :
  Z.b2z (negb f && m) + Z.b2z (negb (f || m) && e) = Z.b2z (negb f && (m || e)).
Proof. destruct f, m, e; reflexivity. Qed.

Lemma concernLoop_score cs a f :
  score (fst (concernLoop cs (a, f)))
    = score a - (10 * Z.b2z (negb (laborIssues f) && existsb isLabor cs)
                 + 10 * Z.b2z (negb (envIssues f) && existsb isEnv cs)
                 + 5 * Z.b2z (negb (antiCompetitive f) && existsb isAnti cs)
                 + 5 * Z.b2z (negb (political f) && existsb isPolitical cs)).
Proof.
  revert a f. induction cs as [|c cs IH]; intros a f; cbn [concernLoop existsb].
  - rewrite !andb_false_r. cbn. lia.
  - destruct (concernStep c (a, f)) as [a' f'] eqn:E.
    destruct (concernStep_score c a f) as [Hs Hf]. rewrite E in Hs, Hf. cbn [fst snd] in Hs, Hf.
    rewrite IH, Hs, Hf. cbn [laborIssues envIssues antiCompetitive political].
    pose proof (b2z_merge (laborIssues f) (isLabor c) (existsb isLabor cs)).
    pose proof (b2z_merge (envIssues f) (isEnv c) (existsb isEnv cs)).
    pose proof (b2z_merge (antiCompetitive f) (isAnti c) (existsb isAnti cs)).
    pose proof (b2z_merge (political f) (isPolitical c) (existsb isPolitical cs)).
    lia.
Qed.

Lemma certStep_score c a : score (certStep c a) = score a + certBonus c.
Proof. unfold certStep, certBonus. split_ifs; cbn; lia. Qed.

Lemma certRule_score cd up a :
  score (certRule cd up a)
    = score a + (match sustainableProducts up with
                 | Some false => 0
                 | _ => sumBonus (or_nil (certifications cd)) end).
Proof.
  unfold certRule.
  assert (H : forall cs a, score (fold_left (fun a c => certStep c a) cs a) = score a + sumBonus cs).
  { induction cs as [|c cs IH]; intros a'; cbn; [lia|]. rewrite IH, certStep_score. lia. }
  destruct (sustainableProducts up) as [[|]|]; cbn; rewrite ?H; lia.
Qed.

Lemma sizeRule_score s a : score (sizeRule s a) = score a + score (sizeRule s zeroAcc).
Proof. unfold sizeRule. split_ifs; cbn; lia. Qed.

Lemma ownershipRule_score o s a :
  score (ownershipRule o s a) = score a + score (ownershipRule o s zeroAcc).
Proof. unfold ownershipRule. split_ifs; cbn; lia. Qed.

Lemma avoidLoop_score n subs bs a :
  score (avoidLoop n subs bs a) = score a + score (avoidLoop n subs bs zeroAcc).
Proof.
  induction bs as [|b bs IH]; cbn [avoidLoop]; [cbn; lia|].
  split_ifs; cbn; lia.
Qed.

(** The final score from the contributions of the five rules, each taken
    on its own. *)
Lemma calculateAlignmentScore_decomp cd up :
  finalScore (calculateAlignmentScore cd up)
  = Z.max 0 (Z.min 100
      (100 + score (sizeRule (lower_or_empty (companySize cd)) zeroAcc)
           + score (ownershipRule (lower_or_empty (ownershipType cd))
                                  (lower_or_empty (companySize cd)) zeroAcc)
           + score (avoidRule cd up zeroAcc)
           - (10 * Z.b2z (existsb isLabor (or_nil (factualConcerns cd)))
              + 10 * Z.b2z (existsb isEnv (or_nil (factualConcerns cd)))
              + 5 * Z.b2z (existsb isAnti (or_nil (factualConcerns cd)))
              + 5 * Z.b2z (existsb isPolitical (or_nil (factualConcerns cd))))
           + (match sustainableProducts up with
              | Some false => 0
              | _ => sumBonus (or_nil (certifications cd)) end))).
Proof.
  unfold calculateAlignmentScore. cbn [finalScore].
  rewrite certRule_score. unfold concernRule. rewrite concernLoop_score.
  unfold avoidRule. rewrite avoidLoop_score, ownershipRule_score, sizeRule_score.
  cbn [laborIssues envIssues antiCompetitive political negb andb score init].
  reflexivity.
Qed.

Lemma existsb_app_mono {A} (p : A -> bool) l1 l2 :
  Z.b2z (existsb p l1) <= Z.b2z (existsb p (l1 ++ l2)).
Proof. rewrite existsb_app. destruct (existsb p l1), (existsb p l2); cbn; lia. Qed.

Lemma sumBonus_app l1 l2 : sumBonus (l1 ++ l2) = sumBonus l1 + sumBonus l2.
Proof. induction l1 as [|c l1 IH]; cbn; lia. Qed.

Lemma sumBonus_nonneg l : 0 <= sumBonus l.
Proof.
  induction l as [|c l IH]; cbn; [lia|].
  assert (0 <= certBonus c) by (unfold certBonus; split_ifs; lia). lia.
Qed.

End ScorerMore.

Section ScorerExtras.
Import Scorer ScorerFacts ScorerMore.

(** The Documented Issues rule takes off 10 when some concern mentions
    labor, worker or wage, 10 when some mentions environment, pollution
    or climate, 5 when some mentions monopoly, anti-competitive or
    antitrust, and 5 when some mentions political, lobbying or
    controversy: each category counts once, whatever the order or number
    of the concerns, so the rule takes off between 0 and 30 points. *)
Theorem concern_penalty_by_category (cd : CompanyAnalysis) (a : acc) :
  score (concernRule cd a)
    = score a - (10 * Z.b2z (existsb isLabor (or_nil (factualConcerns cd)))
                 + 10 * Z.b2z (existsb isEnv (or_nil (factualConcerns cd)))
                 + 5 * Z.b2z (existsb isAnti (or_nil (factualConcerns cd)))
                 + 5 * Z.b2z (existsb isPolitical (or_nil (factualConcerns cd))))
  /\ score a - 30 <= score (concernRule cd a) <= score a.
Proof.
  unfold concernRule. rewrite concernLoop_score.
  cbn [laborIssues envIssues antiCompetitive political negb andb].
  split; [reflexivity|].
  destruct (existsb isLabor _), (existsb isEnv _), (existsb isAnti _), (existsb isPolitical _);
    cbn; lia.
Qed.

(** The Certifications rule adds the bonus of every listed certification
    (15 for B-Corp, 10 for Fair Trade, 5 for carbon neutral, 10 for living
    wage, 0 otherwise), a certification listed twice counting twice; when
    sustainableProducts is false it adds nothing. *)
Theorem cert_bonus_sum (cd : CompanyAnalysis) (up : UserPreferences) (a : acc) :
  score (certRule cd up a)
    = score a + (match sustainableProducts up with
                 | Some false => 0
                 | _ => sumBonus (or_nil (certifications cd)) end)
  /\ (sustainableProducts up = Some false -> certRule cd up a = a).
Proof.
  split; [apply certRule_score|].
  intros H. unfold certRule. rewrite H. reflexivity.
Qed.

(** A run of [cert_bonus_sum] for a user who turned sustainable products
    off: the certification rule leaves the accumulator unchanged. *)
Lemma cert_bonus_sum_witness :
  sustainableProducts (mkPrefs None (Some false)) = Some false /\
  certRule (mkAnalysis (Some "Acme") None None None None (Some ["B Corp"; "Fair Trade"]))
    (mkPrefs None (Some false)) init = init.
Proof.
  split; [reflexivity|].
  exact (proj2 (cert_bonus_sum (mkAnalysis (Some "Acme") None None None None (Some ["B Corp"; "Fair Trade"]))
                  (mkPrefs None (Some false)) init) eq_refl).
Defined.

(** Adding factual concerns to an analysis never raises its final score. *)
Theorem more_concerns_never_raise_score (cd : CompanyAnalysis) (up : UserPreferences)
    (more : list string) :
  finalScore (calculateAlignmentScore (withConcerns cd (or_nil (factualConcerns cd) ++ more)%list) up)
  <= finalScore (calculateAlignmentScore cd up).
Proof.
  rewrite !calculateAlignmentScore_decomp.
  unfold withConcerns, avoidRule.
  cbn [parentCompany companySize ownershipType subsidiaries factualConcerns certifications or_nil].
  pose proof (existsb_app_mono isLabor (or_nil (factualConcerns cd)) more).
  pose proof (existsb_app_mono isEnv (or_nil (factualConcerns cd)) more).
  pose proof (existsb_app_mono isAnti (or_nil (factualConcerns cd)) more).
  pose proof (existsb_app_mono isPolitical (or_nil (factualConcerns cd)) more).
  apply Z.max_le_compat_l, Z.min_le_compat_l. lia.
Qed.

(** Adding certifications to an analysis never lowers its final score. *)
Theorem more_certifications_never_lower_score (cd : CompanyAnalysis) (up : UserPreferences)
    (more : list string) :
  finalScore (calculateAlignmentScore cd up)
  <= finalScore (calculateAlignmentScore (withCertifications cd (or_nil (certifications cd) ++ more)%list) up).
Proof.
  rewrite !calculateAlignmentScore_decomp.
  unfold withCertifications, avoidRule.
  cbn [parentCompany companySize ownershipType subsidiaries factualConcerns certifications or_nil].
  apply Z.max_le_compat_l, Z.min_le_compat_l.
  destruct (sustainableProducts up) as [[|]|];
    rewrite ?sumBonus_app; pose proof (sumBonus_nonneg more); lia.
Qed.

(** When the lowercased parent company name is empty or starts with a
    space (its first word is empty), [checkAvoidedBrands] flags every
    non-empty avoid list, citing its first brand: every brand contains
    the empty first word. *)
Theorem check_avoided_brands_empty_first_word (cd : CompanyAnalysis) (b : string)
    (bs : list string)
    (Hw : firstWord (lower_or_empty (parentCompany cd)) = "") :
  checkAvoidedBrands cd (Some (b :: bs)) = (true, "You've chosen to avoid " ++ b).
Proof.
  unfold checkAvoidedBrands. cbn [checkLoop]. rewrite Hw, includes_empty, orb_true_r.
  reflexivity.
Qed.

Lemma check_avoided_brands_empty_first_word_witness :
  firstWord (lower_or_empty (parentCompany
     (mkAnalysis (Some " Acme") None None None None None))) = ""
  /\ checkAvoidedBrands (mkAnalysis (Some " Acme") None None None None None)
       (Some ["Nestle"; "Walmart"]) = (true, "You've chosen to avoid " ++ "Nestle").
Proof.
  split; [reflexivity|].
  apply check_avoided_brands_empty_first_word. reflexivity.
Defined.

(** [checkAvoidedBrands] either reports false with an empty reason, or
    true with a non-empty reason. *)
Theorem check_avoided_brands_reason (cd : CompanyAnalysis) (avoided : option (list string)) :
  checkAvoidedBrands cd avoided = (false, "")
  \/ exists r, checkAvoidedBrands cd avoided = (true, r) /\ r <> "".
Proof.
  unfold checkAvoidedBrands.
  destruct avoided as [[|b bs]|]; [left; reflexivity | | left; reflexivity].
  set (n := lower_or_empty (parentCompany cd)).
  set (subs := map toLowerCase (or_nil (subsidiaries cd))).
  generalize (b :: bs) as l. clear b bs.
  induction l as [|b bs IH]; cbn [checkLoop]; [left; reflexivity|].
  destruct (_ || _); [right; eexists; split; [reflexivity|discriminate]|].
  assert (Hs : forall sl, checkSubs (toLowerCase b) b sl = None
                 \/ exists r, checkSubs (toLowerCase b) b sl = Some r /\ r <> "").
  { induction sl as [|s sl IHs]; cbn [checkSubs]; [left; reflexivity|].
    destruct (_ || _); [right; eexists; split; [reflexivity|discriminate]|exact IHs]. }
  destruct (Hs subs) as [-> | (r & -> & Hr)]; [exact IH|].
  right. exists r. split; [reflexivity|exact Hr].
Qed.

End ScorerExtras.

(** * Properties of the ranker's sort and of [findLocalAlternatives] *)

Module LocalSearchFacts.
Import Aggregator AggregatorFacts Ranker RankerFacts LocalSearch.
Local Open Scope list_scope.

(** Non-increasing relevance scores. *)
Fixpoint descending (l : list scored) : bool :=
  match l with
  | x :: ((y :: _) as r) => (relevanceScore y <=? relevanceScore x) && descending r
  | _ => true
  end.

Lemma descending_tail x l : descending (x :: l) = true -> descending l = true.
Proof. destruct l as [|y l]; cbn; [reflexivity|]. intros H. apply andb_prop in H. tauto. Qed.

Lemma descending_cons2 x y r :
  descending (x :: y :: r) = (relevanceScore y <=? relevanceScore x) && descending (y :: r).
Proof. reflexivity. Qed.

Lemma insertDesc_descending x l : descending l = true -> descending (insertDesc x l) = true.
Proof.
  induction l as [|y r IH]; intros Hd; cbn [insertDesc]; [reflexivity|].
  destruct (Z.leb_spec (relevanceScore x) (relevanceScore y)) as [Hxy|Hxy].
  - specialize (IH (descending_tail _ _ Hd)).
    destruct r as [|z r'].
    + cbn. apply andb_true_intro. split; [apply Z.leb_le; lia | reflexivity].
    + cbn [insertDesc] in IH |- *.
      rewrite descending_cons2 in Hd. apply andb_prop in Hd as [Hyz _]. apply Z.leb_le in Hyz.
      destruct (Z.leb_spec (relevanceScore x) (relevanceScore z));
        rewrite descending_cons2, IH, andb_true_r; apply Z.leb_le; lia.
  - rewrite descending_cons2, Hd, andb_true_r. apply Z.leb_le. lia.
Qed.

Lemma sortDesc_descending l : descending (sortDesc l) = true.
Proof.
  unfold sortDesc. assert (H : descending [] = true) by reflexivity. revert H.
  generalize (@nil scored). induction l as [|x l IH]; intros acc H; cbn; [exact H|].
  apply IH, insertDesc_descending, H.
Qed.

Lemma insertDesc_perm x l : Permutation (insertDesc x l) (x :: l).
Proof.
  induction l as [|y r IH]; cbn; [reflexivity|].
  destruct (relevanceScore x <=? relevanceScore y); [|reflexivity].
  eapply perm_trans; [apply perm_skip, IH | apply perm_swap].
Qed.

Lemma sortDesc_perm l : Permutation (sortDesc l) l.
Proof.
  unfold sortDesc.
  assert (H : forall acc, Permutation (fold_left (fun acc x => insertDesc x acc) l acc) (l ++ acc)).
  { induction l as [|x l IH]; intros acc; cbn; [reflexivity|].
    eapply perm_trans; [apply IH|].
    eapply perm_trans; [apply Permutation_app_head, insertDesc_perm|].
    apply Permutation_sym, Permutation_middle. }
  rewrite <- (app_nil_r l) at 2. apply H.
Qed.

Lemma descending_firstn n l : descending l = true -> descending (firstn n l) = true.
Proof.
  revert l. induction n as [|n IH]; intros l H; [reflexivity|].
  destruct l as [|x l]; [reflexivity|].
  destruct n as [|n']; [reflexivity|].
  destruct l as [|y l]; [reflexivity|].
  cbn [firstn] in IH |- *. rewrite descending_cons2 in H |- *.
  apply andb_prop in H as [H1 H2]. rewrite H1. cbn [andb].
  apply (IH (y :: l)), H2.
Qed.

Lemma NoDup_map_filter {A B} (f : A -> B) (p : A -> bool) l :
  NoDup (map f l) -> NoDup (map f (List.filter p l)).
Proof.
  induction l as [|x l IH]; cbn; [auto|].
  intros H. apply NoDup_cons in H as [Hx Hl].
  destruct (p x); cbn; [|auto].
  apply NoDup_cons. split; [|auto].
  intros Hin. apply Hx. apply list_elem_of_In in Hin. apply list_elem_of_In.
  apply in_map_iff in Hin as (y & <- & Hy). apply filter_In in Hy as [Hy _].
  apply in_map. exact Hy.
Qed.

Lemma firstn_In' {A} n (l : list A) x : In x (firstn n l) -> In x l.
Proof. intros Hin. rewrite <- (firstn_skipn n l). apply in_or_app. left. exact Hin. Qed.

Lemma NoDup_firstn {A} n (l : list A) : NoDup l -> NoDup (firstn n l).
Proof.
  revert l. induction n as [|n IH]; intros l H; cbn; [constructor|].
  destruct l as [|x l]; [constructor|].
  apply NoDup_cons in H as [Hx Hl]. apply NoDup_cons. split; [|auto].
  intros Hin. apply Hx. apply list_elem_of_In in Hin. apply list_elem_of_In.
  rewrite <- (firstn_skipn n l). apply in_or_app. left. exact Hin.
Qed.

Lemma ranker_ids_nodup places cat site :
  NoDup (map placeId places) ->
  NoDup (map (fun r => placeId (candidate r)) (filterAndScorePlaces places cat site)).
Proof.
  intros H. unfold filterAndScorePlaces.
  eapply NoDup_Permutation_proper; [apply Permutation_map, sortDesc_perm|].
  rewrite map_map. cbn [candidate]. apply NoDup_map_filter, H.
Qed.

Lemma firstOccurrences_in p e l : In p (firstOccurrences e l) -> In p l.
Proof.
  revert e. induction l as [|x l IH]; intros e; cbn; [tauto|].
  rewrite in_app_iff. intros [H|H]; [|right; eapply IH, H].
  destruct (existsb _ e); cbn in H; [contradiction|]. left. tauto.
Qed.

Lemma addUniquePlaces_fed st ps : fed (addUniquePlaces st ps) = fed st ++ ps.
Proof.
  unfold addUniquePlaces. revert st. induction ps as [|p ps IH]; intros st; cbn.
  - rewrite app_nil_r. reflexivity.
  - rewrite IH. unfold addUniquePlace.
    destruct (decide _); cbn [fed]; rewrite <- app_assoc; reflexivity.
Qed.

Lemma fold_fed {X} (P : place -> Prop) (g : X -> list place) xs st :
  (forall p, In p (fed st) -> P p) -> (forall x p, In p (g x) -> P p) ->
  forall p, In p (fed (fold_left (fun st x => addUniquePlaces st (g x)) xs st)) -> P p.
Proof.
  revert st. induction xs as [|x xs IH]; intros st H1 H2; cbn; [exact H1|].
  apply IH; [|exact H2]. intros p. rewrite addUniquePlaces_fed, in_app_iff.
  intros [Hp|Hp]; [apply H1, Hp | eapply H2, Hp].
Qed.

(** Every place the merge handed on was returned by one of the two
    searches. *)
Lemma merge_from_searches sT sN cat an p :
  In p (allPlaces (mergeStrategies sT sN cat an)) ->
  (exists t types, In p (sT t types)) \/ (exists n, In p (sN n)).
Proof.
  intros Hp. destruct (mergeStrategies_inv sT sN cat an) as [H1 _].
  rewrite H1 in Hp. apply firstOccurrences_in in Hp. revert p Hp.
  set (P := fun p => (exists t types, In p (sT t types)) \/ (exists n, In p (sN n))).
  change (forall p, In p (fed (mergeStrategies sT sN cat an)) -> P p).
  unfold mergeStrategies.
  assert (H0 : forall p, In p (fed
            (fold_left (fun st n => addUniquePlaces st (sN n))
               (firstn 2 (or_nil (suggestedStoreNames an)))
               (fold_left (fun st t => addUniquePlaces st (sT t (match googlePlacesTypes an with
                                                   | Some l => l | None => ["store"] end)))
                  (firstn 2 (or_nil (suggestedStoreTypes an))) emptyAgg))) -> P p).
  { apply fold_fed; [|intros x p Hp; right; exists x; exact Hp].
    apply fold_fed; [intros p []|]. intros x p Hp. left. eexists _, _. exact Hp. }
  match goal with |- context [if ?b then _ else _] => destruct b end; [|exact H0].
  intros p. rewrite addUniquePlaces_fed, in_app_iff. intros [Hp|Hp]; [apply H0, Hp|].
  left. eexists _, _. exact Hp.
Qed.

End LocalSearchFacts.

Section LocalSearchExtras.
Import Aggregator AggregatorFacts Ranker RankerFacts LocalSearch LocalSearchFacts.

(** The ranker returns exactly the places that pass its filter, each
    once with its relevance score, ordered by non-increasing relevance. *)
Theorem ranker_sorted_permutation places cat site :
  Permutation (filterAndScorePlaces places cat site)
    (map (fun p => mkScored p (relevance (toLowerCase cat) p))
         (List.filter (keepPlace (categorySpecificFilters (toLowerCase cat))
                         (match site with Some s => toLowerCase s | None => "" end)) places))
  /\ descending (filterAndScorePlaces places cat site) = true.
Proof. split; [apply sortDesc_perm | apply sortDesc_descending]. Qed.

(** The ranker never returns a permanently or temporarily closed place,
    nor one with a type of [irrelevantTypes]; and when a current site is
    given, never one whose lowercased name contains the site, or whose
    name's first word the site contains. *)
Theorem ranker_never_returns places cat site r :
  In r (filterAndScorePlaces places cat site) ->
  businessStatus (candidate r) <> Some "CLOSED_PERMANENTLY"
  /\ businessStatus (candidate r) <> Some "CLOSED_TEMPORARILY"
  /\ (forall t, In t (or_nil (types (candidate r))) -> mem t irrelevantTypes = false)
  /\ (forall s, site = Some s -> toLowerCase s <> "" ->
        includes (toLowerCase (nameText (candidate r))) (toLowerCase s) = false
        /\ includes (toLowerCase s) (firstWord (toLowerCase (nameText (candidate r)))) = false).
Proof.
  intros Hr. apply filterAndScorePlaces_in in Hr as [_ Hk].
  unfold keepPlace in Hk.
  destruct (match businessStatus (candidate r) with Some _ => _ | None => false end) eqn:Hc;
    [discriminate|].
  split; [|split]; [intros Hs; rewrite Hs in Hc; discriminate
                   |intros Hs; rewrite Hs in Hc; discriminate|].
  destruct (negb (String.eqb (match site with Some s => toLowerCase s | None => "" end) "") && _)
    eqn:Hsite; [discriminate|].
  destruct (existsb _ bigBoxRetailers); [discriminate|].
  destruct (existsb (fun t => mem t irrelevantTypes) _) eqn:Hirr; [discriminate|].
  split.
  - intros t Ht. destruct (mem t irrelevantTypes) eqn:Hm; [|reflexivity].
    rewrite <- Hirr. symmetry. apply existsb_exists. exists t. split; assumption.
  - intros s -> Hne. apply String.eqb_neq in Hne. rewrite Hne in Hsite. cbn in Hsite.
    apply orb_false_iff in Hsite. exact Hsite.
Qed.

(** With a current site given, a place whose display name is missing or
    starts with a space (so its first word is empty) is never returned:
    every site name contains the empty word. *)
Theorem ranker_drops_nameless_on_site places cat s r
    (Hs : toLowerCase s <> "")
    (Hw : firstWord (toLowerCase (nameText (candidate r))) = "") :
  ~ In r (filterAndScorePlaces places cat (Some s)).
Proof.
  intros Hr. apply filterAndScorePlaces_in in Hr as [_ Hk].
  unfold keepPlace in Hk. rewrite Hw, includes_empty, orb_true_r, andb_true_r in Hk.
  apply String.eqb_neq in Hs. rewrite Hs in Hk.
  destruct (match businessStatus (candidate r) with Some _ => _ | None => false end);
    discriminate.
Qed.

Lemma ranker_drops_nameless_on_site_witness :
  toLowerCase "BestBuy" <> ""
  /\ firstWord (toLowerCase (nameText (candidate (mkScored (mkPlace (Some "n") None (Some ["store"]) None) 1)))) = ""
  /\ ~ In (mkScored (mkPlace (Some "n") None (Some ["store"]) None) 1)
         (filterAndScorePlaces [mkPlace (Some "n") None (Some ["store"]) None] "snack" (Some "BestBuy")).
Proof.
  split; [discriminate|]. split; [reflexivity|].
  apply ranker_drops_nameless_on_site; [discriminate | reflexivity].
Defined.

(** [findLocalAlternatives] returns [] without a location, with a
    latitude or longitude that is missing or 0, without a Places API key,
    and when the analysis has no product category. *)
Theorem find_local_alternatives_empty key search cat loc an site :
  (loc = None -> findLocalAlternatives key search cat loc an site = [])
  /\ (forall l, loc = Some l -> falsyNum (lat l) = true ->
        findLocalAlternatives key search cat loc an site = [])
  /\ (forall l, loc = Some l -> falsyNum (lon l) = true ->
        findLocalAlternatives key search cat loc an site = [])
  /\ (key = false -> findLocalAlternatives key search cat loc an site = [])
  /\ (cat = None -> findLocalAlternatives key search cat loc an site = []).
Proof.
  unfold findLocalAlternatives.
  split; [intros ->; reflexivity|].
  split; [intros l -> H; rewrite H; reflexivity|].
  split; [intros l -> H; rewrite H, orb_true_r; reflexivity|].
  split; [intros ->; destruct loc as [l|]; [|reflexivity];
          destruct (_ || _); reflexivity|].
  intros ->. destruct loc as [l|]; [|reflexivity].
  destruct (_ || _); [reflexivity|]. destruct key; [|reflexivity]. cbn [negb].
  destruct (lat l), (lon l); reflexivity.
Qed.

Lemma find_local_alternatives_empty_witness :
  findLocalAlternatives true (fun _ _ _ _ => [mkPlace (Some "a") None None None]) (Some "snack")
    (Some (mkLoc (Some 0%Q) (Some (-122.4)%Q))) (mkInput None None None) None = [].
Proof.
  apply (proj1 (proj2 (find_local_alternatives_empty true (fun _ _ _ _ => [mkPlace (Some "a") None None None])
           (Some "snack") (Some (mkLoc (Some 0%Q) (Some (-122.4)%Q))) (mkInput None None None) None)))
    with (l := mkLoc (Some 0%Q) (Some (-122.4)%Q)); reflexivity.
Defined.

(** Whatever the searches return, [findLocalAlternatives] returns at
    most 3 places, with pairwise distinct place ids, in non-increasing
    relevance; each was returned by a search at the user's location with
    the radius [determineSearchRadius] gives, and none is a big-box
    retailer. *)
Theorem find_local_alternatives_results key search cat loc an site :
  let out := findLocalAlternatives key search cat loc an site in
  (List.length out <= 3)%nat
  /\ NoDup (map (fun r => placeId (candidate r)) out)
  /\ descending out = true
  /\ forall r, In r out ->
       (exists l la lo term types, loc = Some l /\ lat l = Some la /\ lon l = Some lo
          /\ In (candidate r) (search l term types (determineSearchRadius la lo)))
       /\ existsb (fun retailer => includes (toLowerCase (nameText (candidate r))) retailer)
            bigBoxRetailers = false.
Proof.
  cbn zeta. unfold findLocalAlternatives.
  destruct loc as [l|]; [|cbn; split; [lia|split; [apply NoDup_nil_2|split; [reflexivity|intros r []]]]].
  destruct (_ || _); [cbn; split; [lia|split; [apply NoDup_nil_2|split; [reflexivity|intros r []]]]|].
  destruct key; cbn [negb]; [|cbn; split; [lia|split; [apply NoDup_nil_2|split; [reflexivity|intros r []]]]].
  destruct (lat l) as [la|] eqn:Hla; [|cbn; split; [lia|split; [apply NoDup_nil_2|split; [reflexivity|intros r []]]]].
  destruct (lon l) as [lo|] eqn:Hlo; [|cbn; split; [lia|split; [apply NoDup_nil_2|split; [reflexivity|intros r []]]]].
  destruct cat as [c|]; [|cbn; split; [lia|split; [apply NoDup_nil_2|split; [reflexivity|intros r []]]]].
  set (st := mergeStrategies _ _ _ _).
  split; [rewrite length_firstn; lia|].
  split.
  { rewrite <- firstn_map. apply NoDup_firstn, ranker_ids_nodup.
    destruct (mergeStrategies_inv (fun t types => search l t types (determineSearchRadius la lo))
                (fun storeName => search l storeName [] (determineSearchRadius la lo)) c an) as [H1 _].
    unfold st. rewrite H1. apply firstOccurrences_nodup. }
  split; [apply descending_firstn, sortDesc_descending|].
  intros r Hr. apply firstn_In' in Hr.
  pose proof Hr as Hr'. apply filterAndScorePlaces_in in Hr' as [Hin Hk].
  split; [|eapply keepPlace_not_big_box, Hk].
  apply merge_from_searches in Hin as [(t & types & Ht) | (n & Hn)].
  - exists l, la, lo, t, types. repeat split; assumption.
  - exists l, la, lo, n, []. repeat split; assumption.
Qed.

(** A grocery in San Francisco, found by a search for snacks. *)
Definition demoGrocer : place :=
  mkPlace (Some "p1") (Some (mkText (Some "Green Grocer"))) (Some ["grocery_store"]) None.

Lemma find_local_alternatives_results_witness :
  In (mkScored demoGrocer 10)
     (findLocalAlternatives true (fun _ _ _ _ => [demoGrocer]) (Some "snack")
        (Some (mkLoc (Some 37.77%Q) (Some (-122.42)%Q))) (mkInput None None None) None) /\
  existsb (fun retailer => includes (toLowerCase (nameText demoGrocer)) retailer) bigBoxRetailers = false.
Proof.
  assert (H : In (mkScored demoGrocer 10)
     (findLocalAlternatives true (fun _ _ _ _ => [demoGrocer]) (Some "snack")
        (Some (mkLoc (Some 37.77%Q) (Some (-122.42)%Q))) (mkInput None None None) None))
    by (vm_compute; tauto).
  split; [exact H|].
  exact (proj2 (proj2 (proj2 (proj2 (find_local_alternatives_results true (fun _ _ _ _ => [demoGrocer])
           (Some "snack") (Some (mkLoc (Some 37.77%Q) (Some (-122.42)%Q))) (mkInput None None None) None)))
           _ H)).
Defined.

Lemma ranker_never_returns_witness :
  In (mkScored demoGrocer 10) (filterAndScorePlaces [demoGrocer] "snack" (Some "shop.example")) /\
  businessStatus (candidate (mkScored demoGrocer 10)) <> Some "CLOSED_PERMANENTLY" /\
  includes (toLowerCase (nameText (candidate (mkScored demoGrocer 10)))) (toLowerCase "shop.example") = false.
Proof.
  assert (H : In (mkScored demoGrocer 10)
     (filterAndScorePlaces [demoGrocer] "snack" (Some "shop.example"))) by (vm_compute; tauto).
  destruct (ranker_never_returns _ _ _ _ H) as [Hp [_ [_ Hs]]].
  split; [exact H|]. split; [exact Hp|].
  exact (proj1 (Hs "shop.example" eq_refl ltac:(vm_compute; discriminate))).
Defined.

End LocalSearchExtras.

(** * String facts, online alternatives and the location bonus *)

Module StringFacts.
Import JsString PriceScraper.

Lemma app_cons_s c (x y : string) : String c x ++ y = String c (x ++ y).
Proof. reflexivity. Qed.

Lemma length_app_s (x y : string) : String.length (x ++ y) = (String.length x + String.length y)%nat.
Proof. induction x; [reflexivity|]; rewrite ?app_cons_s; cbn; now rewrite IHx. Qed.

Lemma app_assoc_s (x y z : string) : x ++ y ++ z = (x ++ y) ++ z.
Proof. induction x; [reflexivity|]; rewrite ?app_cons_s; cbn; now rewrite IHx. Qed.

Lemma app_nil_s (x : string) : x ++ "" = x.
Proof. induction x; [reflexivity|]; rewrite ?app_cons_s; cbn; now rewrite IHx. Qed.

Lemma startsWith_iff s p : startsWith s p = true <-> exists y, s = p ++ y.
Proof.
  revert s; induction p as [|c p IH]; intros s.
  - split; [intros _; exists s; reflexivity|intros _; apply startsWith_empty].
  - destruct s as [|d s]; cbn.
    + split; [discriminate|intros [y Hy]; discriminate].
    + destruct (Ascii.eqb_spec c d) as [<-|Hne].
      * rewrite IH. split; intros [y Hy]; exists y; [now rewrite Hy|now injection Hy].
      * split; [discriminate|intros [y Hy]; injection Hy; intros; congruence].
Qed.

Lemma includes_cons c s m : includes (String c s) m = startsWith (String c s) m || includes s m.
Proof.
  change (includes (String c s) m) with (if startsWith (String c s) m then true else includes s m).
  destruct (startsWith (String c s) m); reflexivity.
Qed.

Lemma includes_iff s m : includes s m = true <-> exists x y, s = x ++ m ++ y.
Proof.
  induction s as [|c s IH].
  - destruct m as [|c m].
    + split; [intros _; exists "", ""; reflexivity|reflexivity].
    + split; [discriminate|intros [x [y Hxy]]; destruct x; discriminate].
  - rewrite includes_cons. destruct (startsWith (String c s) m) eqn:E; cbn [orb].
    + split; [intros _|reflexivity]. apply startsWith_iff in E as [y Hy].
      exists "", y. exact Hy.
    + rewrite IH. split.
      * intros [x [y Hxy]]. exists (String c x), y. now rewrite Hxy.
      * intros [x [y Hxy]]. destruct x as [|d x]; rewrite ?app_cons_s in Hxy.
        -- assert (startsWith (String c s) m = true) by (apply startsWith_iff; now exists y).
           congruence.
        -- injection Hxy as -> Hs. now exists x, y.
Qed.

Lemma includes_app_l s m x y : includes s m = true -> includes (x ++ s ++ y) m = true.
Proof.
  rewrite !includes_iff. intros [u [v ->]].
  exists (x ++ u), (v ++ y). now rewrite <- !app_assoc_s.
Qed.

Lemma lower_char_idem c : lower_char (lower_char c) = lower_char c.
Proof. destruct c as [[] [] [] [] [] [] [] []]; reflexivity. Qed.

Lemma toLowerCase_idem s : toLowerCase (toLowerCase s) = toLowerCase s.
Proof. induction s; cbn; [reflexivity|now rewrite lower_char_idem, IHs]. Qed.

Lemma toLowerCase_app x y : toLowerCase (x ++ y) = toLowerCase x ++ toLowerCase y.
Proof. induction x; [reflexivity|]; rewrite ?app_cons_s; cbn; now rewrite IHx. Qed.

Lemma substring_all y m : (String.length y <= m)%nat -> substring 0 m y = y.
Proof.
  revert m; induction y as [|c y IH]; intros m Hm; destruct m; cbn in *; try reflexivity; try lia.
  f_equal. apply IH. lia.
Qed.

Lemma substring_skip p y m : substring (String.length p) m (p ++ y) = substring 0 m y.
Proof. induction p as [|c p IH]; [reflexivity|]. rewrite app_cons_s. exact IH. Qed.

Lemma substring_after p y :
  substring (String.length p) (String.length (p ++ y)) (p ++ y) = y.
Proof. rewrite substring_skip. apply substring_all. rewrite length_app_s. lia. Qed.

Lemma includes_nil m : includes "" m = startsWith "" m.
Proof. destruct m; reflexivity. Qed.

Lemma splitAt_eq p s :
  splitAt p s =
  if startsWith s p then Some (EmptyString, substring (String.length p) (String.length s) s)
  else match s with
       | EmptyString => None
       | String c s' =>
           match splitAt p s' with
           | Some (b, a) => Some (String c b, a)
           | None => None
           end
       end.
Proof. destruct s; reflexivity. Qed.

Lemma splitAt_none p s : splitAt p s = None -> includes s p = false.
Proof.
  induction s as [|c s IH]; rewrite splitAt_eq.
  - rewrite includes_nil. destruct (startsWith "" p); [discriminate|reflexivity].
  - rewrite includes_cons. destruct (startsWith (String c s) p); [discriminate|].
    destruct (splitAt p s) as [[b a]|]; [discriminate|]. intros _. now apply IH.
Qed.

Lemma splitAt_some p s b a :
  splitAt p s = Some (b, a) -> s = b ++ p ++ a /\ (p <> "" -> includes b p = false).
Proof.
  revert b a; induction s as [|c s IH]; intros b a; rewrite splitAt_eq.
  - destruct (startsWith "" p) eqn:E; [|discriminate]. intros H; injection H as <- <-.
    apply startsWith_iff in E as [y Hy]. destruct p; [|discriminate].
    split; [reflexivity|congruence].
  - set (r := substring (String.length p) (String.length (String c s)) (String c s)).
    destruct (startsWith (String c s) p) eqn:E.
    + apply startsWith_iff in E as [y Hy].
      assert (r = y) as Hr by (unfold r; rewrite Hy; apply substring_after).
      intros H; injection H as <- <-. rewrite Hr, Hy.
      split; [reflexivity|]. intros Hp. destruct p; [congruence|reflexivity].
    + destruct (splitAt p s) as [[b' a']|] eqn:Es; [|discriminate].
      intros H; injection H as <- <-. destruct (IH b' a' eq_refl) as [Hs Hb].
      split; [now rewrite Hs|]. intros Hp. rewrite includes_cons.
      destruct (startsWith (String c b') p) eqn:E'; [|now apply Hb].
      exfalso. apply startsWith_iff in E' as [y Hy].
      assert (startsWith (String c s) p = true) as E2.
      { apply startsWith_iff. exists (y ++ p ++ a'). rewrite Hs, <- app_cons_s, Hy.
        now rewrite <- app_assoc_s. }
      congruence.
Qed.

Lemma includes_app_char x y ch :
  includes (x ++ y) (String ch "") = includes x (String ch "") || includes y (String ch "").
Proof.
  induction x as [|c x IH]; [reflexivity|].
  rewrite app_cons_s, !includes_cons, IH.
  cbn. rewrite !startsWith_empty. destruct (Ascii.eqb ch c); reflexivity.
Qed.

Lemma includes_cons_char c s ch :
  includes (String c s) (String ch "") = Ascii.eqb ch c || includes s (String ch "").
Proof. rewrite includes_cons. cbn. rewrite startsWith_empty. now destruct (Ascii.eqb ch c). Qed.

End StringFacts.

Module OnlineFacts.
Import JsString PriceScraper Online StringFacts.
Local Open Scope list_scope.

Lemma splitN_nonempty f p s : splitN f p s <> [].
Proof. destruct f; cbn [splitN]; [discriminate|]. destruct (splitAt p s) as [[b a]|]; discriminate. Qed.

Lemma shorter_rest p s b a :
  p <> ""%string -> s = (b ++ p ++ a)%string -> (String.length a < String.length s)%nat.
Proof.
  intros Hp ->. rewrite !length_app_s. destruct p; [congruence|]. cbn. lia.
Qed.

Lemma splitN_last p : p <> ""%string -> forall fuel s, (String.length s < fuel)%nat ->
  includes (List.last (splitN fuel p s) "") p = false /\
  (List.last (splitN fuel p s) "" = s \/ exists pre, s = (pre ++ p ++ List.last (splitN fuel p s) "")%string).
Proof.
  intros Hp. induction fuel as [|f IH]; intros s Hl; [lia|]. cbn [splitN].
  destruct (splitAt p s) as [[b a]|] eqn:E.
  - destruct (splitAt_some _ _ _ _ E) as [Hs _].
    assert (Ha : (String.length a < f)%nat) by (pose proof (shorter_rest _ _ _ _ Hp Hs); lia).
    destruct (IH a Ha) as [Hn Hor].
    destruct (splitN f p a) as [|w ws] eqn:Es; [exfalso; exact (splitN_nonempty _ _ _ Es)|].
    change (List.last (b :: w :: ws) "") with (List.last (w :: ws) "").
    split; [exact Hn|right]. destruct Hor as [Hl' | [pre Hpre]].
    + exists b. rewrite Hl'. exact Hs.
    + exists (b ++ p ++ pre)%string. rewrite Hs, Hpre at 1. now rewrite <- !app_assoc_s.
  - split; [now apply splitAt_none|left; reflexivity].
Qed.

Lemma splitN_all p : p <> ""%string -> forall fuel s, (String.length s < fuel)%nat ->
  Forall (fun w => includes w p = false) (splitN fuel p s).
Proof.
  intros Hp. induction fuel as [|f IH]; intros s Hl; [lia|]. cbn [splitN].
  destruct (splitAt p s) as [[b a]|] eqn:E.
  - destruct (splitAt_some _ _ _ _ E) as [Hs Hb]. constructor; [now apply Hb|].
    apply IH. pose proof (shorter_rest _ _ _ _ Hp Hs). lia.
  - constructor; [now apply splitAt_none|constructor].
Qed.

Lemma splitN_sub p : forall fuel s,
  Forall (fun w => exists x y, s = (x ++ w ++ y)%string) (splitN fuel p s).
Proof.
  induction fuel as [|f IH]; intros s; cbn [splitN].
  - constructor; [exists "", ""; cbn; now rewrite app_nil_s|constructor].
  - destruct (splitAt p s) as [[b a]|] eqn:E.
    + destruct (splitAt_some _ _ _ _ E) as [Hs _]. constructor.
      * exists "", (p ++ a)%string. exact Hs.
      * apply (Forall_impl _ _ _ (IH a)). intros w [x [y Hxy]].
        exists (b ++ p ++ x)%string, y. rewrite Hs, Hxy. now rewrite <- !app_assoc_s.
    + constructor; [exists "", ""; cbn; now rewrite app_nil_s|constructor].
Qed.

Lemma splitN_hd p f s : p <> ""%string -> includes (List.hd "" (splitN (S f) p s)) p = false.
Proof.
  intros Hp. cbn [splitN]. destruct (splitAt p s) as [[b a]|] eqn:E; cbn [List.hd].
  - now apply (splitAt_some _ _ _ _ E).
  - now apply splitAt_none.
Qed.

Lemma includes_char_sub s w ch :
  includes s (String ch "") = false -> (exists x y, s = (x ++ w ++ y)%string) ->
  includes w (String ch "") = false.
Proof.
  intros H [x [y ->]]. rewrite !includes_app_char in H.
  now apply orb_false_iff in H as [_ H]; apply orb_false_iff in H as [H _].
Qed.

Lemma upper_char_dash c : Ascii.eqb "-" (upper_char c) = Ascii.eqb "-" c.
Proof. destruct c as [[] [] [] [] [] [] [] []]; reflexivity. Qed.

Lemma upper_char_dot c : Ascii.eqb "." (upper_char c) = Ascii.eqb "." c.
Proof. destruct c as [[] [] [] [] [] [] [] []]; reflexivity. Qed.

Lemma capitalize_dash w : includes (capitalize w) "-" = includes w "-".
Proof. destruct w as [|c w]; [reflexivity|]. cbn [capitalize]. now rewrite !includes_cons_char, upper_char_dash. Qed.

Lemma capitalize_dot w : includes (capitalize w) "." = includes w ".".
Proof. destruct w as [|c w]; [reflexivity|]. cbn [capitalize]. now rewrite !includes_cons_char, upper_char_dot. Qed.

Lemma concat_no_char sep l ch :
  includes sep (String ch "") = false -> Forall (fun w => includes w (String ch "") = false) l ->
  includes (String.concat sep l) (String ch "") = false.
Proof.
  intros Hs Hl. induction Hl as [|x l Hx Hl IH]; [reflexivity|].
  destruct l as [|y l]; [exact Hx|].
  change (String.concat sep (x :: y :: l)) with (x ++ sep ++ String.concat sep (y :: l))%string.
  now rewrite !includes_app_char, Hx, Hs, IH.
Qed.

Lemma mega_lower d : isMegaCorp (toLowerCase d) = isMegaCorp d.
Proof. unfold isMegaCorp. now rewrite toLowerCase_idem. Qed.

Lemma mega_extend d x y : isMegaCorp d = true -> isMegaCorp (x ++ d ++ y) = true.
Proof.
  unfold isMegaCorp. rewrite !existsb_exists. intros [m [Hm Hi]]. exists m. split; [exact Hm|].
  rewrite !toLowerCase_app. now apply includes_app_l.
Qed.

(** [sortBy priceFirst]: the priced alternatives first, each group in its
    original order. *)
Lemma insertBy_priceFirst x P U :
  Forall (fun a => hasPrice a = true) P -> Forall (fun a => hasPrice a = false) U ->
  insertBy priceFirst x (P ++ U) = if hasPrice x then P ++ x :: U else P ++ U ++ [x].
Proof.
  intros HP HU. induction HP as [|y P Hy HP IH]; cbn [app].
  - induction HU as [|y U Hy HU IH]; cbn [insertBy].
    + now destruct (hasPrice x).
    + unfold priceFirst at 1. rewrite Hy. destruct (hasPrice x) eqn:Hx; cbn.
      * reflexivity.
      * rewrite IH; try rewrite Hx; reflexivity.
  - cbn [insertBy]. unfold priceFirst at 1. rewrite Hy, IH.
    destruct (hasPrice x); reflexivity.
Qed.

Lemma sortBy_priceFirst_acc l m :
  fold_left (fun acc x => insertBy priceFirst x acc) l
    (List.filter hasPrice m ++ List.filter (fun a => negb (hasPrice a)) m) =
  List.filter hasPrice (m ++ l) ++ List.filter (fun a => negb (hasPrice a)) (m ++ l).
Proof.
  revert m; induction l as [|x l IH]; intros m; cbn [fold_left].
  - now rewrite app_nil_r.
  - rewrite insertBy_priceFirst.
    + replace (m ++ x :: l) with ((m ++ [x]) ++ l) by (now rewrite <- app_assoc).
      rewrite <- IH. f_equal. rewrite !List.filter_app. cbn.
      destruct (hasPrice x); cbn; now rewrite ?app_nil_r, <- ?app_assoc.
    + apply List.Forall_forall. intros a Ha. now apply List.filter_In in Ha as [_ Ha].
    + apply List.Forall_forall. intros a Ha. apply List.filter_In in Ha as [_ Ha]. now destruct (hasPrice a).
Qed.

Lemma sortBy_priceFirst l :
  sortBy priceFirst l = List.filter hasPrice l ++ List.filter (fun a => negb (hasPrice a)) l.
Proof. exact (sortBy_priceFirst_acc l []). Qed.

Section WithEnv.
Variable hostnameOf : string -> option string.
Variable fetchPage : string -> option (bool * string).

Lemma processResults_bad_url name items item :
  In item items -> hostnameOf (itemUrl item) = None ->
  processResults hostnameOf fetchPage name items = None.
Proof.
  intros Hin Hbad. induction items as [|it items IH]; [destruct Hin|].
  destruct Hin as [<-|Hin]; cbn [processResults].
  - now rewrite Hbad.
  - rewrite (IH Hin). destruct (hostnameOf (itemUrl it)); [|reflexivity].
    repeat match goal with |- context [if ?b then _ else _] => destruct b end;
      try reflexivity.
    destruct (itemTitle it); [|reflexivity].
    match goal with |- context [if ?b then _ else _] => destruct b end; reflexivity.
Qed.

Definition kept (name : string) (item : searchItem) (a : onlineAlt) : Prop :=
  exists domain title,
    hostnameOf (itemUrl item) = Some domain /\ isMegaCorp domain = false /\
    existsb (fun d => includes (toLowerCase domain) d) irrelevantDomains = false /\
    itemTitle item = Some title /\
    (includes (toLowerCase title) (firstWord (toLowerCase name)) = true \/
     (50 <= String.length (toLowerCase (match itemDescription item with Some d => d | None => "" end)))%nat) /\
    altName a = extractBusinessName title domain /\ altUrl a = itemUrl item /\
    altDescription a = itemDescription item /\
    altPrice a = scrapePriceFromPage (fetchPage (itemUrl item)) /\
    (hasPrice a = true <-> altPrice a <> None).

Lemma processResults_in name items alts a :
  processResults hostnameOf fetchPage name items = Some alts -> In a alts ->
  exists item, In item items /\ kept name item a.
Proof.
  revert alts; induction items as [|it items IH]; intros alts H Ha; cbn [processResults] in H.
  - injection H as <-. destruct Ha.
  - destruct (hostnameOf (itemUrl it)) as [domain|] eqn:Hh; [|discriminate].
    destruct (isMegaCorp domain) eqn:Hm.
    { destruct (IH _ H Ha) as [item [Hi Hk]]. exists item. split; [now right|exact Hk]. }
    destruct (existsb (fun d => includes (toLowerCase domain) d) irrelevantDomains) eqn:Hirr.
    { destruct (IH _ H Ha) as [item [Hi Hk]]. exists item. split; [now right|exact Hk]. }
    destruct (itemTitle it) as [title|] eqn:Ht; [|discriminate].
    destruct (negb (includes (toLowerCase title) (firstWord (toLowerCase name))) &&
              Nat.ltb (String.length (toLowerCase (match itemDescription it with Some d => d | None => "" end))) 50) eqn:Hrel.
    { destruct (IH _ H Ha) as [item [Hi Hk]]. exists item. split; [now right|exact Hk]. }
    destruct (processResults hostnameOf fetchPage name items) as [rest|] eqn:Hr; [|discriminate].
    injection H as <-. destruct Ha as [<-|Ha].
    + exists it. split; [now left|]. exists domain, title.
      cbn [altName altUrl altDescription altPrice hasPrice].
      repeat split; try assumption; try reflexivity.
      * apply andb_false_iff in Hrel as [Hrel|Hrel].
        -- left. now apply negb_false_iff.
        -- right. now apply Nat.ltb_ge.
      * destruct (scrapePriceFromPage (fetchPage (itemUrl it))); [discriminate|congruence].
      * destruct (scrapePriceFromPage (fetchPage (itemUrl it))); [reflexivity|congruence].
    + destruct (IH _ eq_refl Ha) as [item [Hi Hk]]. exists item. split; [now right|exact Hk].
Qed.

End WithEnv.

End OnlineFacts.

Section OnlineExtras.
Import JsString PriceScraper Online StringFacts OnlineFacts.

(** [isMegaCorp] lower-cases the domain before the substring tests, so it
    does not depend on letter case; and a domain that contains a mega-corp
    domain as a substring, anywhere, is itself a mega-corp domain. *)
Theorem is_mega_corp_case_and_substring d x y :
  isMegaCorp (toLowerCase d) = isMegaCorp d /\
  (isMegaCorp d = true -> isMegaCorp (x ++ d ++ y) = true).
Proof. split; [apply mega_lower|apply mega_extend]. Qed.

Lemma is_mega_corp_case_and_substring_witness :
  isMegaCorp "amazon" = true /\ isMegaCorp ("shop." ++ "amazon" ++ ".co.uk") = true.
Proof.
  assert (H : isMegaCorp "amazon" = true) by (vm_compute; reflexivity).
  split; [exact H|]. exact (proj2 (is_mega_corp_case_and_substring "amazon" "shop." ".co.uk") H).
Defined.

(** When the title contains one of the separators, the business name is
    the trimmed text after the last occurrence of the first separator (in
    the order [" - "], [" | "], [": "], [" : "]) the title contains. *)
Theorem business_name_after_last_separator title domain sep :
  find (fun s => includes title s) separators = Some sep ->
  exists pre rest, title = pre ++ sep ++ rest /\ includes rest sep = false /\
                   extractBusinessName title domain = Parser.trim rest.
Proof.
  intros Hf. pose proof (find_some _ _ Hf) as [Hin Hinc].
  assert (Hne : sep <> "") by (intros ->; cbn in Hin; intuition discriminate).
  unfold extractBusinessName. rewrite Hf. unfold jsSplit. cbn [splitN].
  destruct (splitAt sep title) as [[b a]|] eqn:E.
  2:{ apply splitAt_none in E. congruence. }
  destruct (splitAt_some _ _ _ _ E) as [Ht _].
  assert (Ha : (String.length a < String.length title)%nat) by (exact (shorter_rest _ _ _ _ Hne Ht)).
  destruct (splitN_last sep Hne (String.length title) a Ha) as [Hn Hor].
  destruct (splitN (String.length title) sep a) as [|w ws] eqn:Es;
    [exfalso; exact (splitN_nonempty _ _ _ Es)|].
  change (List.last (b :: w :: ws) "") with (List.last (w :: ws) "").
  destruct Hor as [Hl | [pre Hpre]].
  - exists b, a. rewrite Hl. split; [exact Ht|split; [rewrite <- Hl; exact Hn|reflexivity]].
  - exists (b ++ sep ++ pre), (List.last (w :: ws) "").
    split; [|split; [exact Hn|reflexivity]].
    rewrite Ht, Hpre at 1. now rewrite <- !app_assoc_s.
Qed.

Lemma business_name_after_last_separator_witness :
  find (fun s => includes "Steel Bottle - Eco Shop - Home " s) separators = Some " - " /\
  exists pre rest, "Steel Bottle - Eco Shop - Home " = pre ++ " - " ++ rest /\
    includes rest " - " = false /\
    extractBusinessName "Steel Bottle - Eco Shop - Home " "shop.example" = Parser.trim rest.
Proof.
  assert (H : find (fun s => includes "Steel Bottle - Eco Shop - Home " s) separators = Some " - ")
    by (vm_compute; reflexivity).
  split; [exact H|]. exact (business_name_after_last_separator _ "shop.example" _ H).
Defined.

(** When the title contains none of the separators, the name is built from
    the domain and contains neither a dot nor a hyphen. *)
Theorem business_name_from_domain_clean title domain :
  (forall sep, In sep separators -> includes title sep = false) ->
  includes (extractBusinessName title domain) "." = false /\
  includes (extractBusinessName title domain) "-" = false.
Proof.
  intros H. unfold extractBusinessName.
  assert (Hf : find (fun s => includes title s) separators = None).
  { unfold separators. cbn [find].
    rewrite (H " - "), (H " | "), (H ": "), (H " : ") by (cbn; tauto). reflexivity. }
  rewrite Hf.
  set (host := List.hd "" (jsSplit "." (replaceFirst ".com" "" (replaceFirst "www." "" domain)))).
  assert (Hdot : includes host "." = false) by (apply splitN_hd; discriminate).
  assert (Hparts : Forall (fun w => includes w "." = false /\ includes w "-" = false) (jsSplit "-" host)).
  { pose proof (splitN_all "-" ltac:(discriminate) (S (String.length host)) host ltac:(lia)) as Hall.
    pose proof (splitN_sub "-" (S (String.length host)) host) as Hsub.
    unfold jsSplit. apply List.Forall_forall. intros w Hw.
    rewrite List.Forall_forall in Hall, Hsub. split.
    - exact (includes_char_sub host w "." Hdot (Hsub w Hw)).
    - exact (Hall w Hw). }
  split; apply concat_no_char; try reflexivity;
    apply List.Forall_forall; intros c Hc; apply in_map_iff in Hc as [w [<- Hw]];
    rewrite List.Forall_forall in Hparts; destruct (Hparts w Hw) as [H1 H2].
  - now rewrite capitalize_dot.
  - now rewrite capitalize_dash.
Qed.

Lemma business_name_from_domain_clean_witness :
  (forall sep, In sep separators -> includes "Eco goods" sep = false) /\
  includes (extractBusinessName "Eco goods" "www.eco-goods.com") "." = false /\
  includes (extractBusinessName "Eco goods" "www.eco-goods.com") "-" = false.
Proof.
  assert (H : forall sep, In sep separators -> includes "Eco goods" sep = false).
  { intros sep Hs. cbn in Hs. intuition subst; vm_compute; reflexivity. }
  split; [exact H|]. exact (business_name_from_domain_clean _ "www.eco-goods.com" H).
Defined.

(** [findSmallOnlineRetailers] returns [] without a usable API key, when the
    request throws, when the response is not ok, when there are no results,
    and when any of the first eight results has a URL [new URL] rejects. *)
Theorem find_small_online_retailers_empty hostnameOf fetchPage key response name cat :
  (key = None \/ key = Some "" \/ key = Some "YOUR_BRAVE_SEARCH_API_KEY" \/
   response = None \/ (exists r, response = Some (false, r)) \/
   (exists ok, response = Some (ok, None)) \/ (exists ok, response = Some (ok, Some [])) \/
   (exists items item, response = Some (true, Some items) /\ In item (firstn 8 items) /\
                       hostnameOf (itemUrl item) = None)) ->
  findSmallOnlineRetailers hostnameOf fetchPage key response name cat = [].
Proof.
  unfold findSmallOnlineRetailers.
  intros [->|[->|[->|[->|[[r ->]|[[ok ->]|[[ok ->]|[items [item [-> [Hin Hbad]]]]]]]]]]];
    try reflexivity.
  all: destruct key as [k|]; [|reflexivity]; destruct (_ || _); [reflexivity|].
  all: try reflexivity; try (destruct ok; reflexivity).
  cbn [negb]. rewrite (processResults_bad_url _ _ _ _ _ Hin Hbad).
  now destruct items.
Qed.

(** A URL parser that rejects one URL, and a page carrying a JSON price
    field of 12.50. *)
Definition demoHost (u : string) : option string :=
  if String.eqb u "bad url" then None else Some u.

Definition pricedPage : string :=
  "<div>" ++ q1 ++ "price" ++ q1 ++ ": " ++ q1 ++ "12.50" ++ q1 ++ "</div>".

Definition demoFetch (u : string) : option (bool * string) :=
  if String.eqb u "pricedshop.com" then Some (true, pricedPage) else None.

Definition demoItems : list searchItem :=
  [mkItem "plainshop.com" (Some "Steel bottle - Plain Shop") None;
   mkItem "amazon.com" (Some "Steel bottle on Amazon") None;
   mkItem "pricedshop.com" (Some "Steel bottle | Priced Shop") None].

Lemma find_small_online_retailers_empty_witness :
  findSmallOnlineRetailers demoHost demoFetch (Some "key")
    (Some (true, Some (demoItems ++ [mkItem "bad url" (Some "Steel bottle") None])%list))
    "steel bottle" "drinkware" = [].
Proof.
  apply find_small_online_retailers_empty.
  right; right; right; right; right; right; right.
  exists (demoItems ++ [mkItem "bad url" (Some "Steel bottle") None])%list,
         (mkItem "bad url" (Some "Steel bottle") None).
  split; [reflexivity|split; [cbn; tauto|reflexivity]].
Defined.

(** [findSmallOnlineRetailers] returns at most two alternatives, and each
    comes from one of the first eight search results that the loop keeps:
    its hostname parses and is neither a mega-corp nor an irrelevant
    domain, it has a title, the title contains the product's first word or
    the description has at least 50 characters, and the alternative's
    name, URL, description and price are the ones computed from it. *)
Theorem find_small_online_retailers_kept hostnameOf fetchPage key response name cat :
  let out := findSmallOnlineRetailers hostnameOf fetchPage key response name cat in
  (List.length out <= 2)%nat /\
  forall a, In a out ->
    exists items item, response = Some (true, Some items) /\ In item (firstn 8 items) /\
                       kept hostnameOf fetchPage name item a.
Proof.
  cbn zeta. unfold findSmallOnlineRetailers.
  destruct key as [k|]; [|split; [cbn; lia|intros a []]].
  destruct (_ || _); [split; [cbn; lia|intros a []]|].
  destruct response as [[ok results]|]; [|split; [cbn; lia|intros a []]].
  destruct ok; [|split; [cbn; lia|intros a []]].
  destruct results as [[|it items]|]; try (split; [cbn; lia|intros a []]).
  destruct (processResults hostnameOf fetchPage name (firstn 8 (it :: items))) as [alts|] eqn:Hp;
    [|split; [cbn; lia|intros a []]].
  cbn [negb]. split; [rewrite List.length_firstn; lia|].
  intros a Ha. apply LocalSearchFacts.firstn_In' in Ha. rewrite sortBy_priceFirst in Ha.
  assert (Ha' : In a alts).
  { apply in_app_or in Ha as [Ha|Ha]; apply List.filter_In in Ha; tauto. }
  destruct (processResults_in _ _ _ _ _ _ Hp Ha') as [item [Hi Hk]].
  exists (it :: items), item. split; [reflexivity|split; assumption].
Qed.

Lemma find_small_online_retailers_kept_witness :
  In (mkAlt "Plain Shop" "plainshop.com" None None false)
     (findSmallOnlineRetailers demoHost demoFetch (Some "key") (Some (true, Some demoItems))
        "steel bottle" "drinkware") /\
  exists items item, Some (true, Some demoItems) = Some (true, Some items) /\
    In item (firstn 8 items) /\
    kept demoHost demoFetch "steel bottle" item (mkAlt "Plain Shop" "plainshop.com" None None false).
Proof.
  assert (H : In (mkAlt "Plain Shop" "plainshop.com" None None false)
     (findSmallOnlineRetailers demoHost demoFetch (Some "key") (Some (true, Some demoItems))
        "steel bottle" "drinkware")) by (vm_compute; tauto).
  split; [exact H|].
  exact (proj2 (find_small_online_retailers_kept demoHost demoFetch (Some "key")
                  (Some (true, Some demoItems)) "steel bottle" "drinkware") _ H).
Defined.

(** Once the loop has produced its alternatives, the two returned are the
    first two of: the priced alternatives in search order, then the
    unpriced ones in search order (the comparator only ranks priced before
    unpriced, and the sort is stable). *)
Theorem find_small_online_retailers_priced_first hostnameOf fetchPage k response name cat items alts :
  k <> "" -> k <> "YOUR_BRAVE_SEARCH_API_KEY" ->
  response = Some (true, Some items) -> items <> [] ->
  processResults hostnameOf fetchPage name (firstn 8 items) = Some alts ->
  findSmallOnlineRetailers hostnameOf fetchPage (Some k) response name cat =
  firstn 2 (List.filter hasPrice alts ++ List.filter (fun a => negb (hasPrice a)) alts).
Proof.
  intros Hk1 Hk2 -> Hne Hp. unfold findSmallOnlineRetailers.
  apply String.eqb_neq in Hk1, Hk2. rewrite Hk1, Hk2. cbn [orb negb].
  destruct items as [|it items]; [congruence|]. rewrite Hp.
  now rewrite sortBy_priceFirst.
Qed.

Lemma find_small_online_retailers_priced_first_witness :
  processResults demoHost demoFetch "steel bottle" (firstn 8 demoItems) =
    Some [mkAlt "Plain Shop" "plainshop.com" None None false;
          mkAlt "Priced Shop" "pricedshop.com" None (Some (Fin 12.50)) true] /\
  findSmallOnlineRetailers demoHost demoFetch (Some "key") (Some (true, Some demoItems))
    "steel bottle" "drinkware" =
  [mkAlt "Priced Shop" "pricedshop.com" None (Some (Fin 12.50)) true;
   mkAlt "Plain Shop" "plainshop.com" None None false].
Proof.
  assert (H : processResults demoHost demoFetch "steel bottle" (firstn 8 demoItems) =
    Some [mkAlt "Plain Shop" "plainshop.com" None None false;
          mkAlt "Priced Shop" "pricedshop.com" None (Some (Fin 12.50)) true])
    by (vm_compute; reflexivity).
  split; [exact H|].
  rewrite (find_small_online_retailers_priced_first demoHost demoFetch "key" _ "steel bottle"
             "drinkware" demoItems _ ltac:(discriminate) ltac:(discriminate) eq_refl
             ltac:(discriminate) H).
  reflexivity.
Defined.

End OnlineExtras.

Section LocationExtras.
Import PriceScraper LocalSearch.

Ltac qcases :=
  repeat match goal with
  | |- context [Qle_bool ?a ?b] =>
      let E := fresh "E" in
      destruct (Qle_bool a b) eqn:E;
      [apply Qle_bool_iff in E | apply not_true_iff_false in E; rewrite Qle_bool_iff in E]
  | |- context [Qeq_bool ?a ?b] =>
      let E := fresh "E" in
      destruct (Qeq_bool a b) eqn:E;
      [apply Qeq_bool_iff in E | apply not_true_iff_false in E; rewrite Qeq_bool_iff in E]
  end.

(** [calculateLocationBonus] only gives 0, 10, 20 or 30; it gives 0 for a
    missing distance, for a distance of 0 or below, and for [NaN] and the
    infinities; and over positive finite distances it never increases as
    the distance grows. *)
Theorem location_bonus_tiers :
  (forall d, In (calculateLocationBonus d) [0; 10; 20; 30]) /\
  calculateLocationBonus None = 0 /\
  (forall q, (q <= 0)%Q -> calculateLocationBonus (Some (Fin q)) = 0) /\
  calculateLocationBonus (Some NaN) = 0 /\
  (forall neg, calculateLocationBonus (Some (Inf neg)) = 0) /\
  (forall q1 q2, (0 < q1)%Q -> (q1 <= q2)%Q ->
     calculateLocationBonus (Some (Fin q2)) <= calculateLocationBonus (Some (Fin q1))).
Proof.
  split; [|split; [reflexivity|split; [|split; [reflexivity|split]]]].
  - intros [[| |q]|]; unfold calculateLocationBonus, numTruthy, numLt;
      try destruct neg; cbn; try tauto.
    repeat match goal with |- context [if ?b then _ else _] => destruct b end; cbn; tauto.
  - intros q Hq. unfold calculateLocationBonus, numTruthy, numLt. qcases; cbn; try reflexivity; lra.
  - intros []; reflexivity.
  - intros q1 q2 H1 H2. unfold calculateLocationBonus, numTruthy, numLt.
    qcases; cbn; try lia; lra.
Qed.

Lemma location_bonus_tiers_witness :
  (0 < 1.5)%Q /\ (1.5 <= 7)%Q /\
  calculateLocationBonus (Some (Fin 7)) <= calculateLocationBonus (Some (Fin 1.5)) /\
  (-3 <= 0)%Q /\ calculateLocationBonus (Some (Fin (-3))) = 0.
Proof.
  assert (H1 : (0 < 1.5)%Q) by (vm_compute; reflexivity).
  assert (H2 : (1.5 <= 7)%Q) by (vm_compute; discriminate).
  assert (H3 : (-3 <= 0)%Q) by (vm_compute; discriminate).
  destruct location_bonus_tiers as (_ & _ & Hneg & _ & _ & Hmono).
  split; [exact H1|split; [exact H2|split; [exact (Hmono _ _ H1 H2)|split; [exact H3|exact (Hneg _ H3)]]]].
Defined.

End LocationExtras.

(** * The reply unwrapping and validation of the analysis parser *)

Module UnwrapFacts.
Import JsString Parser StringFacts.
Local Open Scope list_scope.

(** [trimStart] on the character list. *)
Fixpoint lts (l : list ascii) : list ascii :=
  match l with
  | c :: r => if is_space c then lts r else l
  | [] => []
  end.

Lemma las_app (x y : string) :
  list_ascii_of_string (x ++ y)%string = list_ascii_of_string x ++ list_ascii_of_string y.
Proof. induction x as [|c x IH]; [reflexivity|]. rewrite app_cons_s. cbn. now rewrite IH. Qed.

Lemma las_inj (x y : string) : list_ascii_of_string x = list_ascii_of_string y -> x = y.
Proof.
  intros H. rewrite <- (string_of_list_ascii_of_string x), <- (string_of_list_ascii_of_string y).
  now rewrite H.
Qed.

Lemma las_trimStart s : list_ascii_of_string (trimStart s) = lts (list_ascii_of_string s).
Proof. induction s as [|c s IH]; cbn; [reflexivity|]. destruct (is_space c); [exact IH|reflexivity]. Qed.

Lemma las_rev_string s : list_ascii_of_string (rev_string s) = rev (list_ascii_of_string s).
Proof. unfold rev_string. apply list_ascii_of_string_of_list_ascii. Qed.

Lemma las_trim s :
  list_ascii_of_string (trim s) = rev (lts (rev (lts (list_ascii_of_string s)))).
Proof. unfold trim. now rewrite las_rev_string, las_trimStart, las_rev_string, las_trimStart. Qed.

Lemma lts_keep_cons c l : is_space c = false -> lts (c :: l) = c :: l.
Proof. intros H. cbn. now rewrite H. Qed.

Lemma lts_drop_cons c l : is_space c = true -> lts (c :: l) = lts l.
Proof. intros H. cbn. now rewrite H. Qed.

Lemma lts_split l : exists p, l = p ++ lts l.
Proof.
  induction l as [|c l [p Hp]]; [exists []; reflexivity|]. cbn.
  destruct (is_space c); [exists (c :: p); cbn; congruence|exists []; reflexivity].
Qed.

Lemma lts_length l : (length (lts l) <= length l)%nat.
Proof. destruct (lts_split l) as [p Hp]. rewrite Hp at 2. rewrite length_app. lia. Qed.

Lemma lts_idem l : lts (lts l) = lts l.
Proof.
  induction l as [|c l IH]; [reflexivity|]. cbn.
  destruct (is_space c) eqn:E; [exact IH|cbn; now rewrite E].
Qed.

Lemma lts_cons_fixed c t : lts (c :: t) = c :: t -> is_space c = false.
Proof.
  cbn. destruct (is_space c); [|reflexivity]. intros H.
  pose proof (lts_length t) as Hl. rewrite H in Hl. cbn in Hl. lia.
Qed.

(** Dropping leading white space keeps a list free of trailing white
    space. *)
Lemma lts_keeps_tail l : lts (rev l) = rev l -> lts (rev (lts l)) = rev (lts l).
Proof.
  intros H. destruct (lts_split l) as [p Hp].
  destruct (rev (lts l)) as [|c r] eqn:Er; [reflexivity|].
  assert (Hrl : rev l = c :: r ++ rev p).
  { rewrite Hp at 1. rewrite rev_app_distr, Er. reflexivity. }
  rewrite Hrl in H. apply lts_cons_fixed in H. cbn. now rewrite H.
Qed.

Definition T (l : list ascii) : list ascii := rev (lts (rev (lts l))).

Lemma T_idem l : T (T l) = T l.
Proof.
  unfold T. set (m := lts (rev (lts l))).
  assert (Hm : lts (rev m) = rev m).
  { unfold m. apply lts_keeps_tail. rewrite rev_involutive. apply lts_idem. }
  rewrite Hm, rev_involutive. unfold m. now rewrite lts_idem.
Qed.

Lemma T_infix l : exists p q, l = p ++ T l ++ q.
Proof.
  destruct (lts_split l) as [p Hp]. destruct (lts_split (rev (lts l))) as [q Hq].
  exists p, (rev q). unfold T. set (m := lts (rev (lts l))) in *.
  assert (E : lts l = rev m ++ rev q).
  { rewrite <- (rev_involutive (lts l)), Hq. apply rev_app_distr. }
  rewrite Hp at 1. now rewrite E.
Qed.

Lemma trim_idem s : trim (trim s) = trim s.
Proof. apply las_inj. rewrite !las_trim. exact (T_idem _). Qed.

Lemma trim_infix s : exists x y, s = (x ++ trim s ++ y)%string.
Proof.
  destruct (T_infix (list_ascii_of_string s)) as [p [q H]].
  exists (string_of_list_ascii p), (string_of_list_ascii q). apply las_inj.
  rewrite !las_app, !list_ascii_of_string_of_list_ascii, las_trim. exact H.
Qed.

Lemma includes_nil_pat s m : includes s m = false -> startsWith s m = false.
Proof.
  destruct s as [|c s].
  - now rewrite includes_nil.
  - rewrite includes_cons. now destruct (startsWith (String c s) m).
Qed.

Lemma strip_close_fence_eq s :
  strip_close_fence s =
  if startsWith s fence && all_space (substring 3 (String.length s) s) then EmptyString
  else match s with
       | EmptyString => EmptyString
       | String c s' => String c (strip_close_fence s')
       end.
Proof. destruct s; reflexivity. Qed.

Lemma strip_close_fence_none s : includes s fence = false -> strip_close_fence s = s.
Proof.
  induction s as [|c s IH]; intros H; rewrite strip_close_fence_eq.
  - now rewrite (includes_nil_pat _ _ H).
  - rewrite (includes_nil_pat _ _ H). cbn [andb]. rewrite includes_cons in H.
    apply orb_false_iff in H as [_ H]. now rewrite IH.
Qed.

(** Cutting at a close fence only happens at or after a point where the
    text before it cannot start a fence. *)
Lemma strip_close_fence_app x y :
  (forall x1 x2, x = (x1 ++ x2)%string -> x2 <> "" -> startsWith (x2 ++ y) fence = false) ->
  strip_close_fence (x ++ y) = (x ++ strip_close_fence y)%string.
Proof.
  induction x as [|c x IH]; intros H; [reflexivity|].
  rewrite app_cons_s, strip_close_fence_eq.
  rewrite <- app_cons_s, (H "" (String c x) eq_refl ltac:(discriminate)). cbn [andb].
  rewrite app_cons_s, IH; [reflexivity|].
  intros x1 x2 Hx Hne. apply (H (String c x1) x2); [now rewrite Hx|exact Hne].
Qed.

Lemma trim_fixed s :
  trim s = s ->
  lts (list_ascii_of_string s) = list_ascii_of_string s /\
  lts (rev (list_ascii_of_string s)) = rev (list_ascii_of_string s).
Proof.
  intros H. apply (f_equal list_ascii_of_string) in H. rewrite las_trim in H.
  set (l := list_ascii_of_string s) in *.
  assert (Hl : lts l = l).
  { destruct (lts_split l) as [p Hp].
    assert (Hlen : length (rev (lts (rev (lts l)))) = length l) by now rewrite H.
    rewrite length_rev in Hlen. pose proof (lts_length (rev (lts l))) as H1.
    rewrite length_rev in H1.
    assert (Hp0 : length p = 0%nat).
    { apply (f_equal (@length ascii)) in Hp. rewrite length_app in Hp. lia. }
    destruct p; [exact (eq_sym Hp)|discriminate]. }
  split; [exact Hl|]. rewrite Hl in H. rewrite <- H at 2. now rewrite rev_involutive.
Qed.

Lemma trim_ends s c d :
  (exists m, list_ascii_of_string s = c :: m) -> (exists m', rev (list_ascii_of_string s) = d :: m') ->
  is_space c = false -> is_space d = false -> trim s = s.
Proof.
  intros [m Hm] [m' Hm'] Hc Hd. apply las_inj. rewrite las_trim.
  assert (E1 : lts (list_ascii_of_string s) = list_ascii_of_string s) by (rewrite Hm; cbn; now rewrite Hc).
  assert (E2 : lts (rev (list_ascii_of_string s)) = rev (list_ascii_of_string s))
    by (rewrite Hm'; cbn; now rewrite Hd).
  rewrite E1, E2. apply rev_involutive.
Qed.

End UnwrapFacts.

Section ParserExtras.
Import JsString Json Parser ParserFacts StringFacts UnwrapFacts.

Definition newline : string := String (ascii_of_nat 10) EmptyString.

(** [unwrap], the text handed to [JSON.parse], never has white space
    around it; and a reply that contains no code fence is only trimmed. *)
Theorem unwrap_trimmed_and_plain text :
  trim (unwrap text) = unwrap text /\
  (includes text fence = false -> unwrap text = trim text).
Proof.
  split; [apply trim_idem|]. intros H. unfold unwrap.
  assert (Hc : includes (trim text) fence = false).
  { destruct (includes (trim text) fence) eqn:E; [|reflexivity].
    destruct (trim_infix text) as [x [y Hxy]].
    rewrite <- H, Hxy. symmetry. now apply includes_app_l. }
  pose proof (includes_nil_pat _ _ Hc) as Hs.
  unfold strip_json_fence. rewrite Hs. cbn [andb]. unfold strip_open_fence. rewrite Hs.
  rewrite strip_close_fence_none by exact Hc. apply trim_idem.
Qed.

Lemma unwrap_trimmed_and_plain_witness :
  includes ("  {" ++ "}" ++ newline) fence = false /\
  unwrap ("  {" ++ "}" ++ newline) = "{}".
Proof.
  assert (H : includes ("  {" ++ "}" ++ newline) fence = false) by (vm_compute; reflexivity).
  split; [exact H|].
  rewrite (proj2 (unwrap_trimmed_and_plain _) H). vm_compute. reflexivity.
Defined.

(** A JSON body wrapped in a [```json] fence comes back unchanged from
    [unwrap], as long as it has no surrounding white space and no code
    fence of its own. *)
Theorem unwrap_fenced_json body :
  trim body = body -> includes body fence = false ->
  unwrap ("```json" ++ newline ++ body ++ newline ++ "```") = body.
Proof.
  intros Ht Hf.
  destruct body as [|a r]; [vm_compute; reflexivity|].
  destruct (trim_fixed _ Ht) as [HL HR].
  assert (Ha : is_space a = false) by (exact (lts_cons_fixed _ _ HL)).
  set (body := String a r) in *.
  set (text := ("```json" ++ newline ++ body ++ newline ++ "```")%string).
  (* the reply has no surrounding white space *)
  assert (T1 : trim text = text).
  { apply (trim_ends text "`"%char "`"%char); [| |reflexivity|reflexivity].
    - eexists. unfold text. rewrite las_app. reflexivity.
    - eexists. unfold text. rewrite !las_app, !rev_app_distr. reflexivity. }
  (* no suffix of the body followed by the closing line starts a fence *)
  assert (Hsuf : forall x1 x2, body = (x1 ++ x2)%string -> x2 <> "" ->
                 startsWith (x2 ++ newline ++ "```") fence = false).
  { intros x1 x2 Hb Hne.
    destruct x2 as [|a1 [|a2 [|a3 r3]]]; [congruence| | |].
    - change (startsWith (String a1 (String (ascii_of_nat 10) "```")) fence = false).
      unfold fence; cbn [startsWith]. destruct (Ascii.eqb "`" a1); reflexivity.
    - change (startsWith (String a1 (String a2 (String (ascii_of_nat 10) "```"))) fence = false).
      unfold fence; cbn [startsWith]. destruct (Ascii.eqb "`" a1), (Ascii.eqb "`" a2); reflexivity.
    - rewrite !app_cons_s.
      replace (startsWith (String a1 (String a2 (String a3 (r3 ++ newline ++ "```")))) fence)
        with (startsWith (String a1 (String a2 (String a3 r3))) fence)
        by (unfold fence; cbn [startsWith]; now rewrite !startsWith_empty).
      destruct (startsWith (String a1 (String a2 (String a3 r3))) fence) eqn:E; [|reflexivity].
      apply startsWith_iff in E as [z Hz]. rewrite <- Hf, Hb, Hz.
      symmetry. apply (includes_app_l fence fence x1 z). apply includes_iff.
      exists "", "". cbn. now rewrite app_nil_s. }
  unfold unwrap. rewrite T1.
  assert (S1 : strip_json_fence text = (body ++ newline ++ "```")%string).
  { change (strip_json_fence text) with (trimStart (substring 7 (String.length text) text)).
    unfold text. rewrite (substring_skip "```json"), substring_all
      by (rewrite !length_app_s; cbn; lia).
    change (trimStart (String (ascii_of_nat 10) (body ++ newline ++ "```")))
      with (trimStart (body ++ newline ++ "```")).
    assert (N : forall x, trimStart (newline ++ x) = trimStart x) by reflexivity.
    unfold body. rewrite N, app_cons_s. cbn [trimStart]. now rewrite Ha. }
  rewrite S1.
  assert (S2 : strip_open_fence (body ++ newline ++ "```") = (body ++ newline ++ "```")%string).
  { unfold strip_open_fence. now rewrite (Hsuf "" body eq_refl ltac:(discriminate)). }
  rewrite S2, (strip_close_fence_app body (newline ++ "```") (fun x1 x2 => Hsuf x1 x2)).
  change (strip_close_fence (newline ++ "```")) with newline.
  apply las_inj. rewrite las_trim, las_app.
  change (list_ascii_of_string newline) with [ascii_of_nat 10].
  change (list_ascii_of_string body) with (a :: list_ascii_of_string r) in *.
  cbn [app]. rewrite (lts_keep_cons a) by exact Ha.
  cbn [rev]. rewrite rev_app_distr. cbn [rev app].
  rewrite (lts_drop_cons (ascii_of_nat 10)) by reflexivity.
  cbn [rev] in HR. rewrite HR. rewrite rev_app_distr. cbn [rev app]. now rewrite rev_involutive.
Qed.

Lemma unwrap_fenced_json_witness :
  trim ("{" ++ "}") = "{" ++ "}" /\ includes ("{" ++ "}") fence = false /\
  unwrap ("```json" ++ newline ++ ("{" ++ "}") ++ newline ++ "```") = "{" ++ "}".
Proof.
  assert (H1 : trim ("{" ++ "}") = "{" ++ "}") by (vm_compute; reflexivity).
  assert (H2 : includes ("{" ++ "}") fence = false) by (vm_compute; reflexivity).
  split; [exact H1|split; [exact H2|exact (unwrap_fenced_json _ H1 H2)]].
Defined.

(** After [validateAndCleanData], an array [factualConcerns] holds exactly
    the entries the filter keeps, in order; each is a string that mentions
    neither [example] nor [placeholder], and whose first year match, if
    any, lies in [1800, currentYear]. *)
Theorem validated_concerns cy f l :
  get_field f "factualConcerns" = Some (JArr l) ->
  get_field (validateAndCleanData cy f) "factualConcerns"
    = Some (JArr (List.filter (keepConcern cy) l)) /\
  (forall c, In c (List.filter (keepConcern cy) l) ->
     exists s, c = JStr s /\ includes s "example" = false /\ includes s "placeholder" = false /\
               (forall y, yearMatch None s = Some y -> 1800 <= y <= cy)).
Proof.
  intros H. split.
  - unfold validateAndCleanData. rewrite H. cbn [truthy negb].
    destruct (get_field (set_prop f "factualConcerns" (JArr (List.filter (keepConcern cy) l)))
                "impactExplanation") as [[]|]; try (rewrite get_set; reflexivity).
    match goal with |- context [if ?b then _ else _] => destruct b end;
      rewrite ?get_set; cbn; rewrite ?get_set; reflexivity.
  - intros c Hc. apply List.filter_In in Hc as [_ Hk].
    destruct c as [| | |s| |]; try discriminate. exists s. split; [reflexivity|].
    unfold keepConcern in Hk. apply andb_prop in Hk as [Hy Hw].
    apply negb_true_iff, orb_false_iff in Hw as [He Hp].
    split; [exact He|split; [exact Hp|]].
    intros y Hm. rewrite Hm in Hy. apply negb_true_iff, orb_false_iff in Hy as [H1 H2].
    apply Z.ltb_ge in H1, H2. lia.
Qed.

(** An analysis whose concerns hold a dated string, a placeholder and a
    number. *)
Definition demoConcerns : list (string * json) :=
  [("factualConcerns", JArr [JStr "1999 recall"; JStr "placeholder text"; JNum 3])].

Lemma validated_concerns_witness :
  get_field demoConcerns "factualConcerns"
    = Some (JArr [JStr "1999 recall"; JStr "placeholder text"; JNum 3]) /\
  get_field (validateAndCleanData 2026 demoConcerns) "factualConcerns" = Some (JArr [JStr "1999 recall"]).
Proof.
  split; [reflexivity|].
  rewrite (proj1 (validated_concerns 2026 demoConcerns
                    [JStr "1999 recall"; JStr "placeholder text"; JNum 3] eq_refl)).
  vm_compute. reflexivity.
Defined.

(** [validateAndCleanData] either leaves [impactExplanation] as it was or
    replaces it with the fixed fallback text, and it replaces it only when
    it was a string the repetition check flags. *)
Theorem validated_impact cy f :
  get_field (validateAndCleanData cy f) "impactExplanation" = get_field f "impactExplanation" \/
  (get_field (validateAndCleanData cy f) "impactExplanation" = Some (JStr impactFallback) /\
   exists e, get_field f "impactExplanation" = Some (JStr e) /\ repetitive e = true).
Proof.
  unfold validateAndCleanData.
  set (g := match get_field f "factualConcerns" with
            | Some (JArr l) as v => if truthy v then set_prop f "factualConcerns"
                  (JArr (List.filter (keepConcern cy) l)) else f
            | _ => f end).
  assert (Hg : get_field g "impactExplanation" = get_field f "impactExplanation").
  { unfold g. destruct (get_field f "factualConcerns") as [[]|]; try reflexivity.
    cbn [truthy negb]. rewrite get_set. reflexivity. }
  destruct (get_field g "impactExplanation") as [[| | |e| |]|] eqn:E;
    try (left; rewrite E; exact Hg).
  destruct (truthy (Some (JStr e)) && repetitive e) eqn:R; [|left; rewrite E; exact Hg].
  right. rewrite get_set. split; [reflexivity|]. exists e. split; [now rewrite <- Hg|].
  now apply andb_prop in R as [_ R].
Qed.

(** Once the reply decodes to an object with a truthy [parentCompany],
    [parseClaudeResponse] succeeds; every truthy field other than
    [factualConcerns] and [impactExplanation] comes out unchanged; a falsy
    or missing array field comes out as []; a falsy or missing
    [companySize] or [ownershipType] comes out as [unknown]. *)
Theorem parse_claude_response_fields dec cy text fields :
  dec (unwrap text) = Some (JObj fields) ->
  truthy (get_field fields "parentCompany") = true ->
  exists out, parseClaudeResponse dec cy text = ParseOk (JObj out) /\
    (forall k v, k <> "factualConcerns" -> k <> "impactExplanation" ->
       get_field fields k = Some v -> truthy (Some v) = true -> get_field out k = Some v) /\
    (forall k, In k arrayFields -> truthy (get_field fields k) = false ->
       get_field out k = Some (JArr [])) /\
    (forall k, In k ["companySize"; "ownershipType"] -> truthy (get_field fields k) = false ->
       get_field out k = Some (JStr "unknown")).
Proof.
  intros Hd Hp. exists (validateAndCleanData cy (withDefaults fields)).
  split; [now apply parse_ok_shape|]. split; [|split].
  - intros k v H1 H2 Hv Tv. rewrite validate_get_other by assumption.
    rewrite withDefaults_get, Hv, Tv.
    destruct (existsb _ arrayFields); [reflexivity|]. destruct (existsb _ _); reflexivity.
  - intros k Hk Tk. destruct Hk as [<-|[<-|[<-|[<-|[<-|[<-|[]]]]]]];
      [apply validate_get_fc; rewrite withDefaults_get, Tk; reflexivity|..];
      rewrite validate_get_other by discriminate; rewrite withDefaults_get, Tk; reflexivity.
  - intros k Hk Tk. destruct Hk as [<-|[<-|[]]];
      rewrite validate_get_other by discriminate; rewrite withDefaults_get, Tk; reflexivity.
Qed.

(** A decoder that yields a fixed object with a falsy [companySize], a
    [null] [certifications] and an extra [notes] field. *)
Definition demoFields : list (string * json) :=
  [("parentCompany", JStr "Acme"); ("companySize", JStr ""); ("certifications", JNull);
   ("notes", JStr "family owned")].

Lemma parse_claude_response_fields_witness :
  (fun _ : string => Some (JObj demoFields)) (unwrap "reply") = Some (JObj demoFields) /\
  truthy (get_field demoFields "parentCompany") = true /\
  exists out, parseClaudeResponse (fun _ => Some (JObj demoFields)) 2026 "reply" = ParseOk (JObj out) /\
    get_field out "notes" = Some (JStr "family owned") /\
    get_field out "certifications" = Some (JArr []) /\
    get_field out "companySize" = Some (JStr "unknown").
Proof.
  split; [reflexivity|]. split; [reflexivity|].
  destruct (parse_claude_response_fields (fun _ => Some (JObj demoFields)) 2026 "reply" demoFields
              eq_refl eq_refl) as (out & Hout & Hk & Ha & Hs).
  exists out. split; [exact Hout|]. split; [apply Hk; [discriminate|discriminate|reflexivity|reflexivity]|].
  split; [apply Ha; [cbn; tauto|reflexivity]|apply Hs; [cbn; tauto|reflexivity]].
Defined.

End ParserExtras.
